(** * The commune validator ([commune/vali/vali.py]): evaluation, epochs, votes

    A shallow embedding of the class [Vali]: the per-module evaluator
    ([eval_module]), the epoch scheduler ([epoch]) and the vote pipeline
    ([votes], [vote]), followed by the properties of the validator
    specification that can be settled on this code.

    Conventions of the embedding.
    - Python dictionaries holding JSON-like data are finite maps from
      strings to [value]s; [d.update(r)] is the union biased towards [r].
    - Python numbers ([int] and [float]) are exact rationals ([Qc]): the
      development reasons about the arithmetic of the formulas, not about
      binary64 rounding.  Where rounding changes what holds, in the blend of
      line 299, that line is also given over binary64 ([binary64_blend]).
      A string or a list times an [int], a repetition in Python, is a
      [TypeError] here, as it is in Python for a [float]: what is stated
      about weights that are not numbers is stated for a fractional [alpha].
    - An instance of [Vali] is the record [vali]; a method is a function in
      the state-and-exception monad [M] over it.  Assignments made before an
      exception is raised stay visible, as in Python.
    - Everything the class obtains from its collaborators (the clock, the
      module transport, the chain client, the executor pool) is read from an
      environment record [env]. *)

From stdpp Require Import gmap strings list fin_maps numbers pretty sorting.
From Stdlib Require Import QArith Qcanon Qround Lqa SpecFloat.

Set Default Proof Using "Type".
Close Scope Q_scope.

(** ** Python values *)

Inductive value : Type :=
| VNone
| VBool (b : bool)
| VNum (q : Qc)
| VStr (s : string)
| VObj (repr : string).   (* a list or a nested dict, kept as its rendering *)

Global Instance value_eq_dec : EqDecision value.
Proof. solve_decision. Defined.

Abbreviation dict := (gmap string value).

(** What a scoring function may hand back: a bare number, a bool, a dict, or
    anything else. *)
Inductive pyobj : Type :=
| ONum (q : Qc)
| OBool (b : bool)
| ODict (d : dict)
| OOther.

(** A JSON document read back from the cache directory. *)
Inductive json : Type :=
| JDict (d : dict)
| JOther.

Inductive exn : Type :=
| KeyError (key : string)
| TypeError
| AttributeError (attr : string)
| AssertionError (msg : string)
| ConnectionError
| TimeoutError
| Exception (msg : string).

Global Instance exn_eq_dec : EqDecision exn.
Proof. solve_decision. Defined.

Inductive outcome (A : Type) : Type :=
| Return (a : A)
| Raise (e : exn).
Arguments Return {A} a.
Arguments Raise {A} e.

Definition Qc_of_Z (z : Z) : Qc := Q2Qc (inject_Z z).

(** [bool] is a subclass of [int]: [True] counts as 1 in arithmetic. *)
Definition as_num (v : value) : option Qc :=
  match v with
  | VNum q => Some q
  | VBool b => Some (if b then 1%Qc else 0%Qc)
  | _ => None
  end.

Definition py_arith (op : Qc → Qc → Qc) (a b : value) : outcome value :=
  match as_num a, as_num b with
  | Some x, Some y => Return (VNum (op x y))
  | _, _ => Raise TypeError
  end.

Definition py_sub : value → value → outcome value := py_arith Qcminus.
Definition py_mul : value → value → outcome value := py_arith Qcmult.
Definition py_add : value → value → outcome value := py_arith Qcplus.

Definition py_compare (test : Qc → Qc → bool) (a b : value) : outcome bool :=
  match as_num a, as_num b with
  | Some x, Some y => Return (test x y)
  | _, _ => Raise TypeError
  end.

Definition Qc_ltb (x y : Qc) : bool := bool_decide (x < y)%Qc.
Definition Qc_leb (x y : Qc) : bool := bool_decide (x ≤ y)%Qc.

Definition py_lt : value → value → outcome bool := py_compare Qc_ltb.
Definition py_ge : value → value → outcome bool := py_compare (flip Qc_leb).
Definition py_gt : value → value → outcome bool := py_compare (flip Qc_ltb).

(** [int(x)]: truncation towards zero. *)
Definition py_int (q : Qc) : Z :=
  if Qc_leb 0 q then Qfloor q else Qceiling q.

(** [str(x)], as used by the f-strings.  A rational prints like Python's
    exact [Fraction]: the integer itself, or numerator/denominator. *)
Definition py_str (v : value) : string :=
  match v with
  | VNone => "None"
  | VBool true => "True"
  | VBool false => "False"
  | VNum q =>
      if bool_decide (Qden q = 1%positive) then pretty (Qnum q)
      else pretty (Qnum q) +:+ "/" +:+ pretty (Z.pos (Qden q))
  | VStr s => s
  | VObj r => r
  end.

(** [needle in hay] on strings. *)
Fixpoint contains (needle hay : string) : bool :=
  String.prefix needle hay ||
  match hay with
  | EmptyString => false
  | String _ rest => contains needle rest
  end.

(** [d.get(k, default)] and [d[k]]. *)
Definition dict_get (d : dict) (k : string) (dflt : value) : value :=
  default dflt (d !! k).

Definition dict_item (d : dict) (k : string) : outcome value :=
  match d !! k with
  | Some v => Return v
  | None => Raise (KeyError k)
  end.

(** [d.update(r)]: the entries of [r] win. *)
Definition dict_update (d r : dict) : dict := r ∪ d.

(** ** The validator object and its collaborators *)

Record vali_config : Type := {
  cfg_network : string;
  cfg_netuid : value;
  cfg_batch_size : Z;
  cfg_timeout : Qc;
  cfg_max_age : Qc;
  cfg_alpha : Qc;
  cfg_vote_interval : Qc;
  cfg_min_num_weights : Z;
  cfg_print_interval : Qc;
}.

(** The dict built by [votes]. *)
Record vote_set : Type := {
  vs_keys : list value;
  vs_weights : list value;
  vs_uids : list Z;
  vs_timestamp : Qc;
}.

Inductive payload : Type :=
| PStats (d : dict)
| PInfos (l : list dict)
| PVotes (v : vote_set).

(** Calls that leave the validator. *)
Inductive call : Type :=
| Connect (address : value)              (* c.connect(address, key=...) *)
| ModuleInfo (address : value)           (* module.info(timeout=...) *)
| ScoreModule (address : value)          (* self.score_module(module) *)
| Submit (address : string)              (* executor.submit(self.eval_module, ...) *)
| SubmitVote                             (* c.submit(self.vote, ...) *)
| Put (path : string) (p : payload)      (* self.put(path, ...) *)
| ChainVote (uids : list Z) (weights : list value).   (* c.vote(...) *)

Record vali : Type := mkVali {
  config : vali_config;   (* self.config *)
  network : string;
  netuid : value;
  has_subspace : bool;   (* whether set_network created self.subspace *)
  namespace : gmap string string;
  address2name : gmap string string;
  last_print : Qc;
  last_sync_time : Qc;
  last_vote_time : Qc;
  last_sent : Qc;
  last_success : Qc;
  errors : Z;
  requests : Z;
  successes : Z;
  json_files : gmap string dict;   (* the store behind put_json / get_json *)
  ticks : nat;   (* how many times c.time() was read *)
  calls : list call   (* the calls made to collaborators, oldest first *)
}.

Definition set_last_print (x : Qc) (self : vali) : vali :=
  mkVali (self.(config)) (self.(network)) (self.(netuid))
    (self.(has_subspace)) (self.(namespace)) (self.(address2name)) x
    (self.(last_sync_time)) (self.(last_vote_time)) (self.(last_sent))
    (self.(last_success)) (self.(errors)) (self.(requests)) (self.(successes))
    (self.(json_files)) (self.(ticks)) (self.(calls)).

Definition set_last_sync_time (x : Qc) (self : vali) : vali :=
  mkVali (self.(config)) (self.(network)) (self.(netuid))
    (self.(has_subspace)) (self.(namespace)) (self.(address2name))
    (self.(last_print)) x (self.(last_vote_time)) (self.(last_sent))
    (self.(last_success)) (self.(errors)) (self.(requests)) (self.(successes))
    (self.(json_files)) (self.(ticks)) (self.(calls)).

Definition set_last_vote_time (x : Qc) (self : vali) : vali :=
  mkVali (self.(config)) (self.(network)) (self.(netuid))
    (self.(has_subspace)) (self.(namespace)) (self.(address2name))
    (self.(last_print)) (self.(last_sync_time)) x (self.(last_sent))
    (self.(last_success)) (self.(errors)) (self.(requests)) (self.(successes))
    (self.(json_files)) (self.(ticks)) (self.(calls)).

Definition set_last_sent (x : Qc) (self : vali) : vali :=
  mkVali (self.(config)) (self.(network)) (self.(netuid))
    (self.(has_subspace)) (self.(namespace)) (self.(address2name))
    (self.(last_print)) (self.(last_sync_time)) (self.(last_vote_time)) x
    (self.(last_success)) (self.(errors)) (self.(requests)) (self.(successes))
    (self.(json_files)) (self.(ticks)) (self.(calls)).

Definition set_last_success (x : Qc) (self : vali) : vali :=
  mkVali (self.(config)) (self.(network)) (self.(netuid))
    (self.(has_subspace)) (self.(namespace)) (self.(address2name))
    (self.(last_print)) (self.(last_sync_time)) (self.(last_vote_time))
    (self.(last_sent)) x (self.(errors)) (self.(requests)) (self.(successes))
    (self.(json_files)) (self.(ticks)) (self.(calls)).

Definition set_errors (x : Z) (self : vali) : vali :=
  mkVali (self.(config)) (self.(network)) (self.(netuid))
    (self.(has_subspace)) (self.(namespace)) (self.(address2name))
    (self.(last_print)) (self.(last_sync_time)) (self.(last_vote_time))
    (self.(last_sent)) (self.(last_success)) x (self.(requests))
    (self.(successes)) (self.(json_files)) (self.(ticks)) (self.(calls)).

Definition set_requests (x : Z) (self : vali) : vali :=
  mkVali (self.(config)) (self.(network)) (self.(netuid))
    (self.(has_subspace)) (self.(namespace)) (self.(address2name))
    (self.(last_print)) (self.(last_sync_time)) (self.(last_vote_time))
    (self.(last_sent)) (self.(last_success)) (self.(errors)) x
    (self.(successes)) (self.(json_files)) (self.(ticks)) (self.(calls)).

Definition set_successes (x : Z) (self : vali) : vali :=
  mkVali (self.(config)) (self.(network)) (self.(netuid))
    (self.(has_subspace)) (self.(namespace)) (self.(address2name))
    (self.(last_print)) (self.(last_sync_time)) (self.(last_vote_time))
    (self.(last_sent)) (self.(last_success)) (self.(errors)) (self.(requests))
    x (self.(json_files)) (self.(ticks)) (self.(calls)).

Definition set_json_files (x : gmap string dict) (self : vali) : vali :=
  mkVali (self.(config)) (self.(network)) (self.(netuid))
    (self.(has_subspace)) (self.(namespace)) (self.(address2name))
    (self.(last_print)) (self.(last_sync_time)) (self.(last_vote_time))
    (self.(last_sent)) (self.(last_success)) (self.(errors)) (self.(requests))
    (self.(successes)) x (self.(ticks)) (self.(calls)).

Definition set_ticks (x : nat) (self : vali) : vali :=
  mkVali (self.(config)) (self.(network)) (self.(netuid))
    (self.(has_subspace)) (self.(namespace)) (self.(address2name))
    (self.(last_print)) (self.(last_sync_time)) (self.(last_vote_time))
    (self.(last_sent)) (self.(last_success)) (self.(errors)) (self.(requests))
    (self.(successes)) (self.(json_files)) x (self.(calls)).

Definition set_calls (x : list call) (self : vali) : vali :=
  mkVali (self.(config)) (self.(network)) (self.(netuid))
    (self.(has_subspace)) (self.(namespace)) (self.(address2name))
    (self.(last_print)) (self.(last_sync_time)) (self.(last_vote_time))
    (self.(last_sent)) (self.(last_success)) (self.(errors)) (self.(requests))
    (self.(successes)) (self.(json_files)) (self.(ticks)) x.
(** The client object returned by [c.connect]: the address it points to and
    what its [info] call answers. *)
Record handle : Type := {
  h_address : value;
  h_info : outcome dict;
}.

(** A task handed to the executor. *)
Record future : Type := {
  f_id : nat;
  f_address : string;
}.

(** What waiting on the in-flight futures produces: the future at some
    position is ready with a result, or the wait raises (for a timeout). *)
Inductive completion : Type :=
| Ready (position : nat) (result : dict)
| WaitFails (e : exn).

Record env : Type := {
  clock : nat → Qc;                           (* successive readings of c.time() *)
  c_connect : value → outcome handle;         (* c.connect *)
  score_module : handle → outcome pyobj;      (* Vali.score_module, overridable *)
  c_emoji : string → string;
  c_round : Qc → Z → Qc;
  c_shuffle : list string → list string;
  as_completed : nat → list future → completion;   (* the n-th wait *)
  c_is_error : dict → bool;
  subspace_block : Z;                         (* self.subspace.block *)
  subspace_get_module : dict;                 (* self.subspace.get_module(key) *)
  subspace_key2uid : gmap string Z;           (* self.subspace.key2uid() *)
  cache_listing : list json;                  (* the documents under storage_path() *)
  c_vote : list Z → list value → outcome value;
  c_mean : list value → value;
  c_stdev : list value → value;
}.

(** The scoring function of the base class. *)
Definition default_score_module (module : handle) : outcome pyobj :=
  Return (ODict {[ "success" := VBool true; "w" := VNum 1 ]}).

(** ** The monad of methods *)

Definition M (A : Type) : Type := vali → outcome A * vali.

Definition ret {A} (a : A) : M A := λ self, (Return a, self).
Definition raise {A} (e : exn) : M A := λ self, (Raise e, self).
Definition lift {A} (o : outcome A) : M A := λ self, (o, self).

Definition bind {A B} (m : M A) (k : A → M B) : M B :=
  λ self,
    match m self with
    | (Return a, self') => k a self'
    | (Raise e, self') => (Raise e, self')
    end.

(** [try: m  except Exception as e: handler e] *)
Definition try_except {A} (m : M A) (handler : exn → M A) : M A :=
  λ self,
    match m self with
    | (Return a, self') => (Return a, self')
    | (Raise e, self') => handler e self'
    end.

Definition gets {A} (f : vali → A) : M A := λ self, (Return (f self), self).
Definition modify (f : vali → vali) : M unit := λ self, (Return tt, f self).

Notation "'let*' x ':=' m 'in' k" := (bind m (λ x, k))
  (at level 10, x name, m at level 100, k at level 200,
   format "'[v' 'let*'  x  ':='  m  'in' '/' k ']'").
Notation "m ';;' k" := (bind m (λ _, k))
  (at level 100, k at level 200, right associativity).

Definition record_call (c : call) : M unit :=
  modify (λ self, set_calls (self.(calls) ++ [c]) self).

(** [c.time()] *)
Definition c_time (E : env) : M Qc :=
  λ self, (Return (E.(clock) self.(ticks)), set_ticks (S self.(ticks)) self).

Definition py_assert (b : bool) (msg : string) : M unit :=
  if b then ret tt else raise (AssertionError msg).

Definition in_dict (k : string) (d : dict) : bool := bool_decide (is_Some (d !! k)).

(** ** The module info cache *)

(** [Vali.storage_path] *)
Definition storage_path (self : vali) : string :=
  let network := self.(network) in
  let network_str :=
    if contains "subspace" network
    then network +:+ "." +:+ py_str self.(netuid)
    else network in
  network_str.

(** [get_json(path, default)] of the store. *)
Definition get_json (self : vali) (path : string) (dflt : dict) : dict :=
  default dflt (self.(json_files) !! path).

(** [put_json(path, d)] of the store. *)
Definition put_json (path : string) (d : dict) : M unit :=
  modify (λ self, set_json_files (<[path := d]> self.(json_files)) self).

(** [Vali.load_module_info] *)
Definition load_module_info (self : vali) (k : string) (dflt : option dict) : dict :=
  let dflt := match dflt with Some d => d | None => ∅ end in
  let path := storage_path self +:+ "/" +:+ k in
  get_json self path dflt.

(** The [if]/[elif]/[else] at the head of [get_module_info]: the name and
    the address that an argument (a name or an address) stands for. *)
Definition resolve_module (self : vali) (module : string) : string * value :=
  match self.(namespace) !! module with
  | Some address => (module, VStr address)
  | None =>
      match self.(address2name) !! module with
      | Some name => (name, VStr module)
      | None => (module, VNone)
      end
  end.

(** [Vali.get_module_info] *)
Definition get_module_info (self : vali) (module : string) : dict :=
  let module_name := (resolve_module self module).1 in
  let module_address := (resolve_module self module).2 in
  let info := load_module_info self module_name (Some ∅) in
  let info := <["address" := module_address]> info in
  let info := <["name" := VStr module_name]> info in
  let info := <["schema" := dict_get info "schema" VNone]> info in
  info.

(** ** The evaluator *)

(** [Vali.check_response] *)
Definition check_response (response : pyobj) : outcome dict :=
  match response with
  | ONum q => Return {[ "w" := VNum q ]}
  | OBool b => Return {[ "w" := VNum (if b then 1 else 0)%Qc ]}
  | ODict d =>
      if in_dict "w" d then Return d
      else Raise (AssertionError "Response must have a w key")
  | OOther => Raise (AssertionError "Response must be a dict")
  end.

Definition as_int (v : value) : outcome Z :=
  match as_num v with
  | Some q => Return (py_int q)
  | None => Raise TypeError
  end.

(** [Vali.eval_module] *)
Definition eval_module (E : env) (module : string) : M dict :=
  let* info := gets (λ self, get_module_info self module) in
  let* address := lift (dict_item info "address") in
  record_call (Connect address);;
  let* module := lift (E.(c_connect) address) in
  modify (λ self, set_requests (self.(requests) + 1) self);;
  let* now := c_time E in
  let* seconds_since_called :=
    lift (py_sub (VNum now) (dict_get info "timestamp" (VNum 0))) in
  let* max_age := gets (λ self, self.(config).(cfg_max_age)) in
  let* fresh := lift (py_lt seconds_since_called (VNum max_age)) in
  if fresh then
    let* name := lift (dict_item info "name") in
    let* address := lift (dict_item info "address") in
    let* timestamp := c_time E in
    let* seconds := lift (as_int seconds_since_called) in
    ret {[ "w" := dict_get info "w" (VNum 0);
           "module" := name;
           "address" := address;
           "timestamp" := VNum timestamp;
           "msg" := VStr ("Module is not stale, " +:+ pretty seconds +:+ " < "
                          +:+ py_str (VNum max_age)) ]}
  else
    record_call (ModuleInfo module.(h_address));;
    let* module_info := lift module.(h_info) in
    py_assert (in_dict "address" info && in_dict "name" info) "";;
    let info := dict_update info module_info in
    let* timestamp := c_time E in
    let info := <["timestamp" := VNum timestamp]> info in
    let* scored :=
      try_except
        (record_call (ScoreModule module.(h_address));;
         let* response := lift (E.(score_module) module) in
         let* response := lift (check_response response) in
         ret (dict_update info response, response))
        (λ e,
          let* name := lift (dict_item info "name") in
          let cross := E.(c_emoji) "cross" in
          ret (info,
               {[ "w" := VNum 0;
                  "msg" := VStr (cross +:+ " " +:+ py_str name +:+ " " +:+ cross) ]})) in
    let '(info, response) := scored in
    let* done := c_time E in
    let* timestamp := lift (dict_item info "timestamp") in
    let* latency := lift (py_sub (VNum done) timestamp) in
    let info := <["latency" := latency]> info in
    let* alpha := gets (λ self, self.(config).(cfg_alpha)) in
    let* response_w := lift (dict_item response "w") in
    let* fresh_part := lift (py_mul response_w (VNum alpha)) in
    let* info_w := lift (dict_item info "w") in
    let* old_part := lift (py_mul info_w (VNum (1 - alpha))) in
    let* w := lift (py_add fresh_part old_part) in
    let info := <["w" := w]> info in
    let* name := lift (dict_item info "name") in
    let* root := gets storage_path in
    let path := root +:+ "/" +:+ py_str name in
    put_json path info;;
    let* w := lift (dict_item info "w") in
    let* name := lift (dict_item info "name") in
    let* address := lift (dict_item info "address") in
    let* latency := lift (dict_item info "latency") in
    ret {[ "w" := w; "module" := name; "address" := address; "latency" := latency ]}.

(** *** Vocabulary for statements about [eval_module] *)

(** The staleness that [eval_module] computes for the record of [module]:
    [c.time() - info.get('timestamp', 0)], at the first clock reading. *)
Definition staleness (E : env) (self : vali) (module : string) : option Qc :=
  match as_num (dict_get (get_module_info self module) "timestamp" (VNum 0)) with
  | Some timestamp => Some (E.(clock) self.(ticks) - timestamp)%Qc
  | None => None
  end.

(** The two calls inside the [try]: [score_module], then [check_response]. *)
Definition scoring (E : env) (module : handle) : outcome dict :=
  match E.(score_module) module with
  | Return response => check_response response
  | Raise e => Raise e
  end.

(** The in-memory record when the [try] is entered: the cached record,
    updated with the info the module reported and stamped with the time. *)
Definition merged_info (E : env) (self : vali) (module : string)
    (module_info : dict) : dict :=
  <["timestamp" := VNum (E.(clock) (S self.(ticks)))]>
    (dict_update (get_module_info self module) module_info).

(** The arithmetic of the blend,
    [response['w'] * alpha + info['w'] * (1 - alpha)]. *)
Definition ema (alpha response_w info_w : Qc) : Qc :=
  (response_w * alpha + info_w * (1 - alpha))%Qc.

(** The timestamp that a full evaluation leaves in the record: the clock
    reading of [info['timestamp'] = c.time()], unless the checked response
    carries a [timestamp], which [info.update(response)] puts in its place. *)
Definition stamp (E : env) (self : vali) (module : handle) : value :=
  match scoring E module with
  | Return response =>
      dict_get response "timestamp" (VNum (E.(clock) (S self.(ticks))))
  | Raise _ => VNum (E.(clock) (S self.(ticks)))
  end.

(** The file in which the record named [name] is kept. *)
Definition record_path (self : vali) (name : value) : string :=
  storage_path self +:+ "/" +:+ py_str name.

(** The weight that enters the blend: the one of the checked response, or 0
    when the scoring step raised. *)
Definition fresh_weight (E : env) (module : handle) : option Qc :=
  match scoring E module with
  | Return response => as_num (dict_get response "w" VNone)
  | Raise _ => Some 0%Qc
  end.

(** A response that carries a [timestamp] carries a number there. *)
Definition well_timed (E : env) (module : handle) : Prop :=
  match scoring E module with
  | Return response => is_Some (as_num (dict_get response "timestamp" (VNum 0)))
  | Raise _ => True
  end.

Definition Qc_of_nat (n : nat) : Qc := Qc_of_Z (Z.of_nat n).

Definition Qc_min (x y : Qc) : Qc := if Qc_leb x y then x else y.
Definition Qc_max (x y : Qc) : Qc := if Qc_leb x y then y else x.

(** Evaluations of one module in a row, each in its own environment. *)
Fixpoint eval_rounds (module : string) (envs : list env) (self : vali)
    : list (outcome dict) * vali :=
  match envs with
  | [] => ([], self)
  | E :: envs =>
      let '(o, self') := eval_module E module self in
      let '(os, self'') := eval_rounds module envs self' in
      (o :: os, self'')
  end.

(** An evaluation that finds the record stale, reaches the module, and fails
    in the scoring step; the module reports no score of its own and no name
    other than the one it is registered under. *)
Definition fails_in_scoring (E : env) (self : vali) (module : string) : Prop :=
  ∃ h s module_info e,
    E.(c_connect) (resolve_module self module).2 = Return h ∧
    staleness E self module = Some s ∧
    ¬ (s < self.(config).(cfg_max_age))%Qc ∧
    h.(h_info) = Return module_info ∧
    module_info !! "w" = None ∧
    dict_get module_info "name" (VStr (resolve_module self module).1)
      = VStr (resolve_module self module).1 ∧
    scoring E h = Raise e.

Fixpoint all_fail_in_scoring (module : string) (envs : list env) (self : vali) : Prop :=
  match envs with
  | [] => True
  | E :: envs =>
      fails_in_scoring E self module ∧
      all_fail_in_scoring module envs (eval_module E module self).2
  end.

(** *** The blend in binary64

    The evaluator above computes over exact rationals.  Python computes the
    blend of line 299 in IEEE binary64, rounding each product and the sum to
    the nearest float; [binary64_blend] is that line over the floats of the
    standard library's [SpecFloat] (precision 53, maximal exponent 1024). *)
Definition binary64_one : spec_float := S754_finite false 4503599627370496 (-52).

Definition binary64_blend (response_w alpha info_w : spec_float) : spec_float :=
  SFadd 53 1024
    (SFmul 53 1024 response_w alpha)
    (SFmul 53 1024 info_w (SFsub 53 1024 binary64_one alpha)).

(** The floats [3.0] and [0.2] (the float nearest to 1/5,
    [0x1.999999999999ap-3]). *)
Definition binary64_three : spec_float := S754_finite false 6755399441055744 (-51).
Definition binary64_fifth : spec_float := S754_finite false 7205759403792794 (-55).

(** ** The cache listing and the vote pipeline *)

(** How Python orders two sort keys with [<]: numbers with numbers, strings
    with strings; anything else raises. *)
Definition py_key_lt (a b : value) : outcome bool :=
  match as_num a, as_num b with
  | Some x, Some y => Return (Qc_ltb x y)
  | _, _ =>
      match a, b with
      | VStr x, VStr y => Return (String.ltb x y)
      | _, _ => Raise TypeError
      end
  end.

(** One insertion of a stable sort in decreasing key order: [x] goes in front
    of the first element whose key is strictly smaller. *)
Fixpoint insert_desc {A} (key : A → value) (x : A) (l : list A) : outcome (list A) :=
  match l with
  | [] => Return [x]
  | y :: l' =>
      match py_key_lt (key y) (key x) with
      | Raise e => Raise e
      | Return true => Return (x :: y :: l')
      | Return false =>
          match insert_desc key x l' with
          | Raise e => Raise e
          | Return l'' => Return (y :: l'')
          end
      end
  end.

(** [sorted(l, key=key, reverse=True)] *)
Definition py_sorted_desc {A} (key : A → value) (l : list A) : outcome (list A) :=
  foldl (λ acc x,
           match acc with
           | Raise e => Raise e
           | Return sorted => insert_desc key x sorted
           end)
        (Return []) l.

(** The loop of [module_infos] over the documents read from the cache. *)
Fixpoint module_infos_loop (E : env) (keys : list string) (max_age : Qc)
    (results : list json) (module_infos : list dict) : M (list dict) :=
  match results with
  | [] => ret module_infos
  | JOther :: results => module_infos_loop E keys max_age results module_infos
  | JDict s :: results =>
      if in_dict "ss58_address" s then
        let* now := c_time E in
        let* staleness := lift (py_sub (VNum now) (dict_get s "timestamp" (VNum 0))) in
        let s := <["staleness" := staleness]> s in
        let* stale := lift (py_gt staleness (VNum max_age)) in
        if stale then module_infos_loop E keys max_age results module_infos
        else
          let projected : dict :=
            list_to_map ((λ k, (k, dict_get s k VNone)) <$> keys) in
          module_infos_loop E keys max_age results (module_infos ++ [projected])
      else module_infos_loop E keys max_age results module_infos
  end.

(** [Vali.module_infos], with [update] left at [True]. *)
Definition module_infos (E : env) (keys : list string) (path : string)
    (max_age : Qc) (sort_by : option string) : M (list dict) :=
  let* module_infos := module_infos_loop E keys max_age E.(cache_listing) [] in
  let* module_infos :=
    match sort_by with
    | Some sort_by =>
        if bool_decide (0 < length module_infos)%nat then
          lift (py_sorted_desc
                  (λ x : dict, if in_dict sort_by x then dict_get x sort_by VNone
                               else VNum 0)
                  module_infos)
        else ret module_infos
    | None => ret module_infos
    end in
  record_call (Put path (PInfos module_infos));;
  ret module_infos.

(** [info['ss58_address'] in key2uid], returning the slot when it is there. *)
Definition key2uid_find (key2uid : gmap string Z) (key : value) : outcome (option Z) :=
  match key with
  | VStr k => Return (key2uid !! k)
  | VObj _ => Raise TypeError
  | _ => Return None
  end.

(** [self.subspace], an attribute that exists only after [set_network] saw a
    subspace network. *)
Definition self_subspace : M unit :=
  let* present := gets has_subspace in
  if present then ret tt else raise (AttributeError "subspace").

(** The loop of [votes] over the module infos. *)
Fixpoint votes_loop (key2uid : gmap string Z) (module_infos : list dict)
    (votes : vote_set) : outcome vote_set :=
  match module_infos with
  | [] => Return votes
  | info :: module_infos =>
      let keep :=
        if in_dict "ss58_address" info then
          match dict_item info "w" with
          | Raise e => Raise e
          | Return w =>
              match py_ge w (VNum 0) with
              | Raise e => Raise e
              | Return false => Return None
              | Return true =>
                  match dict_item info "ss58_address" with
                  | Raise e => Raise e
                  | Return key =>
                      match key2uid_find key2uid key with
                      | Raise e => Raise e
                      | Return None => Return None
                      | Return (Some uid) => Return (Some (key, w, uid))
                      end
                  end
              end
          end
        else Return None in
      match keep with
      | Raise e => Raise e
      | Return None => votes_loop key2uid module_infos votes
      | Return (Some (key, w, uid)) =>
          votes_loop key2uid module_infos
            {| vs_keys := votes.(vs_keys) ++ [key];
               vs_weights := votes.(vs_weights) ++ [w];
               vs_uids := votes.(vs_uids) ++ [uid];
               vs_timestamp := votes.(vs_timestamp) |}
      end
  end.

(** [Vali.votes] *)
Definition votes (E : env) : M vote_set :=
  let* module_infos :=
    module_infos E ["name"; "w"; "ss58_address"] "cache/module_infos"
      (Qc_of_Z 1000) (Some "staleness") in
  let* timestamp := c_time E in
  let votes := {| vs_keys := []; vs_weights := []; vs_uids := [];
                  vs_timestamp := timestamp |} in
  self_subspace;;
  let key2uid := E.(subspace_key2uid) in
  let* votes := lift (votes_loop key2uid module_infos votes) in
  py_assert (bool_decide (length votes.(vs_uids) = length votes.(vs_weights)))
    "Length of uids and weights must be the same";;
  ret votes.

(** [Vali.save_votes]; its assertions hold of every [vote_set]. *)
Definition save_votes (votes : vote_set) : M unit :=
  let* root := gets storage_path in
  record_call (Put (root +:+ "/votes") (PVotes votes)).

(** The property [Vali.vote_staleness] *)
Definition vote_staleness (E : env) : M value :=
  let* network := gets (λ self, self.(config).(cfg_network)) in
  if contains "subspace" network then
    self_subspace;;
    let block := E.(subspace_block) in
    self_subspace;;
    let* last_update := lift (dict_item E.(subspace_get_module) "last_update") in
    lift (py_sub (VNum (Qc_of_Z block)) last_update)
  else ret (VNum 0).

Definition VInt (z : Z) : value := VNum (Qc_of_Z z).

(** [Vali.vote]; with [async_vote] the call is handed to the executor and the
    returned future is not a dict. *)
Definition vote (E : env) (async_vote save : bool) : M pyobj :=
  let* staleness := vote_staleness E in
  let* vote_interval := gets (λ self, self.(config).(cfg_vote_interval)) in
  let* too_new := lift (py_lt staleness (VNum vote_interval)) in
  if too_new then
    let* staleness := vote_staleness E in
    ret (ODict {[ "success" := VBool false;
                  "msg" := VStr "Vote is too new";
                  "vote_staleness" := staleness;
                  "vote_interval" := VNum vote_interval ]})
  else
    let* network := gets (λ self, self.(config).(cfg_network)) in
    if negb (contains "subspace" network) && negb (contains "bittensor" network) then
      ret (ODict {[ "success" := VBool false;
                    "msg" := VStr "Not a voting network";
                    "network" := VStr network ]})
    else if async_vote then
      record_call SubmitVote;;
      ret OOther
    else
      let* votes := votes E in
      let* min_num_weights := gets (λ self, self.(config).(cfg_min_num_weights)) in
      if bool_decide (Z.of_nat (length votes.(vs_uids)) < min_num_weights)%Z then
        ret (ODict {[ "success" := VBool false;
                      "msg" := VStr "The votes are too low";
                      "votes" := VInt (Z.of_nat (length votes.(vs_uids)));
                      "min_num_weights" := VInt min_num_weights ]})
      else
        record_call (ChainVote votes.(vs_uids) votes.(vs_weights));;
        let* r := lift (E.(c_vote) votes.(vs_uids) votes.(vs_weights)) in
        (if save then save_votes votes else ret tt);;
        let* now := c_time E in
        modify (set_last_vote_time now);;
        ret (ODict {[ "success" := VBool true;
                      "message" := VStr "Voted";
                      "num_uids" := VInt (Z.of_nat (length votes.(vs_uids)));
                      "timestamp" := VNum now;
                      "avg_weight" := E.(c_mean) votes.(vs_weights);
                      "stdev_weight" := E.(c_stdev) votes.(vs_weights);
                      "saved" := VBool save;
                      "r" := r ]}).

(** ** The epoch scheduler *)

(** The local variables of [epoch] that its loop changes, with the number of
    waits made so far and the number of the next task. *)
Record epoch_state : Type := {
  futures : list future;
  results : list dict;
  waits : nat;
  next_id : nat;
}.

(** Counting a drained result: [errors] or [successes] and [last_success]. *)
Definition count_result (E : env) (result : dict) : M unit :=
  if E.(c_is_error) result then
    modify (λ self, set_errors (self.(errors) + 1) self)
  else
    modify (λ self, set_successes (self.(successes) + 1) self);;
    let* now := c_time E in
    modify (set_last_success now).

(** The periodic snapshot at the end of an iteration of the loop. *)
Definition print_stats (E : env) (stats_path : string) (st : epoch_state) : M unit :=
  let* now := c_time E in
  let* last_print := gets last_print in
  let* print_interval := gets (λ self, self.(config).(cfg_print_interval)) in
  if Qc_ltb print_interval (now - last_print) then
    let* successes := gets successes in
    let* sent := gets requests in
    let* errors := gets errors in
    let* network := gets network in
    let pending := length st.(futures) in
    let* vote_staleness := vote_staleness E in
    let* now1 := c_time E in
    let* last_success := gets last_success in
    let* now2 := c_time E in
    let* last_sent := gets last_sent in
    let stats : dict :=
      {[ "successes" := VInt successes;
         "sent" := VInt sent;
         "errors" := VInt errors;
         "network" := VStr network;
         "pending" := VInt (Z.of_nat pending);
         "vote_staleness" := vote_staleness;
         "last_success" := VNum (E.(c_round) (now1 - last_success) 2);
         "last_sent" := VNum (E.(c_round) (now2 - last_sent) 2) ]} in
    (if bool_decide (stats_path ≠ "") then record_call (Put stats_path (PStats stats))
     else ret tt);;
    let* now3 := c_time E in
    modify (set_last_print now3)
  else ret tt.

(** One iteration of the [for] loop of [epoch], for one module address. *)
Definition epoch_iteration (E : env) (stats_path : string) (st : epoch_state)
    (module_address : string) : M epoch_state :=
  let* batch_size := gets (λ self, self.(config).(cfg_batch_size)) in
  if bool_decide (Z.of_nat (length st.(futures)) < batch_size)%Z then
    let* now := c_time E in
    modify (set_last_sent now);;
    record_call (Submit module_address);;
    let future := {| f_id := st.(next_id); f_address := module_address |} in
    let st := {| futures := st.(futures) ++ [future];
                 results := st.(results);
                 waits := st.(waits);
                 next_id := S st.(next_id) |} in
    print_stats E stats_path st;;
    ret st
  else
    match st.(futures) with
    | [] =>
        (* as_completed yields nothing: the loop body does not run *)
        print_stats E stats_path st;;
        ret st
    | _ :: _ =>
        match E.(as_completed) st.(waits) st.(futures) with
        | Ready position result =>
            let position := (position mod length st.(futures))%nat in
            let results := st.(results) ++ [result] in
            count_result E result;;
            let st := {| futures := delete position st.(futures);
                         results := results;
                         waits := S st.(waits);
                         next_id := st.(next_id) |} in
            print_stats E stats_path st;;
            ret st
        | WaitFails e =>
            (* except: every future is cancelled and counted; continue *)
            modify (λ self,
                      set_errors (self.(errors) + Z.of_nat (length st.(futures))) self);;
            ret {| futures := st.(futures);
                   results := st.(results);
                   waits := S st.(waits);
                   next_id := st.(next_id) |}
        end
    end.

Fixpoint epoch_loop (E : env) (stats_path : string) (module_addresses : list string)
    (st : epoch_state) : M epoch_state :=
  match module_addresses with
  | [] => ret st
  | module_address :: module_addresses =>
      let* st := epoch_iteration E stats_path st module_address in
      epoch_loop E stats_path module_addresses st
  end.

(** The final [for future in c.as_completed(futures, ...)]: [pending] are the
    futures not yet yielded; a failing wait is not caught. *)
Fixpoint epoch_drain (E : env) (fuel : nat) (pending : list future)
    (results : list dict) (waits : nat) : M (list dict) :=
  match fuel, pending with
  | S fuel, _ :: _ =>
      match E.(as_completed) waits pending with
      | Ready position result =>
          let position := (position mod length pending)%nat in
          let results := results ++ [result] in
          count_result E result;;
          epoch_drain E fuel (delete position pending) results (S waits)
      | WaitFails e => raise e
      end
  | _, _ => ret results
  end.

(** [Vali.epoch] *)
Definition epoch (E : env) (stats_path : string) : M (list dict) :=
  let* namespace := gets namespace in
  let module_addresses := E.(c_shuffle) (map_to_list namespace).*2 in
  let* now := c_time E in
  modify (set_last_sync_time now);;
  let st := {| futures := []; results := []; waits := 0; next_id := 0 |} in
  let* st := epoch_loop E stats_path module_addresses st in
  if bool_decide (0 < length st.(futures))%nat then
    epoch_drain E (length st.(futures)) st.(futures) st.(results) st.(waits)
  else ret st.(results).

(** The addresses handed to the executor, in order, read off the calls. *)
Definition submitted (self : vali) : list string :=
  omap (λ c, match c with Submit address => Some address | _ => None end)
       self.(calls).

(** *** Vocabulary for statements about [votes] and [epoch] *)

(** The documents of a cache listing that are dicts carrying an identity:
    the ones [module_infos] looks at. *)
Definition identified (listing : list json) : list dict :=
  omap (λ j, match j with
             | JDict s => if in_dict "ss58_address" s then Some s else None
             | JOther => None
             end) listing.

(** What [module_infos] keeps of a listing when its first clock reading is
    number [tick]: the identified records that are no older than [max_age]
    when they are read, each read taking one clock reading. *)
Fixpoint fresh_records (E : env) (max_age : Qc) (tick : nat) (listing : list json)
    : list dict :=
  match listing with
  | [] => []
  | JOther :: listing => fresh_records E max_age tick listing
  | JDict s :: listing =>
      if in_dict "ss58_address" s then
        let timestamp := default 0%Qc (as_num (dict_get s "timestamp" (VNum 0))) in
        if Qc_ltb max_age (E.(clock) tick - timestamp)
        then fresh_records E max_age (S tick) listing
        else s :: fresh_records E max_age (S tick) listing
      else fresh_records E max_age tick listing
  end.

(** The vote that a record earns: its identity, its score and its slot, when
    the score is a number that is at least 0 and the identity is a key of the
    ledger's key-to-slot map. *)
Definition vote_of (key2uid : gmap string Z) (s : dict) : option (value * value * Z) :=
  let w := dict_get s "w" VNone in
  match as_num w with
  | Some q =>
      if Qc_leb 0 q then
        match dict_get s "ss58_address" VNone with
        | VStr k => (λ uid, (VStr k, w, uid)) <$> key2uid !! k
        | _ => None
        end
      else None
  | None => None
  end.

(** A record on which the comparisons of [module_infos] and [votes] do not
    raise: its timestamp (if any) and its score are numbers, and its identity
    is hashable. *)
Definition well_formed_record (s : dict) : bool :=
  bool_decide (is_Some (as_num (dict_get s "timestamp" (VNum 0)))) &&
  bool_decide (is_Some (as_num (dict_get s "w" VNone))) &&
  match s !! "ss58_address" with Some (VObj _) => false | _ => true end.

(** The keys that [votes] asks [module_infos] for, and the dict that
    [module_infos] makes of a record for them. *)
Definition vote_keys : list string := ["name"; "w"; "ss58_address"].

Definition project (keys : list string) (s : dict) : dict :=
  list_to_map ((λ k, (k, dict_get s k VNone)) <$> keys).

(** Appending the votes [kept] to a vote set. *)
Definition add_votes (votes : vote_set) (kept : list (value * value * Z)) : vote_set :=
  {| vs_keys := votes.(vs_keys) ++ kept.*1.*1;
     vs_weights := votes.(vs_weights) ++ kept.*1.*2;
     vs_uids := votes.(vs_uids) ++ kept.*2;
     vs_timestamp := votes.(vs_timestamp) |}.

(** The local variables of [epoch] before its loop, and the bound on the
    futures in flight. *)
Definition epoch_start : epoch_state :=
  {| futures := []; results := []; waits := 0; next_id := 0 |}.

Definition bounded (batch_size : Z) (st : epoch_state) : Prop :=
  (Z.of_nat (length st.(futures)) ≤ batch_size)%Z.

(** ** Concrete validators, for the examples below *)

Definition Qc_frac (n : Z) (d : positive) : Qc := Q2Qc (n # d).

Definition scenario_config (alpha max_age : Qc) (batch_size : Z) : vali_config :=
  {| cfg_network := "local"; cfg_netuid := VNum 0;
     cfg_batch_size := batch_size; cfg_timeout := Qc_of_Z 10;
     cfg_max_age := max_age; cfg_alpha := alpha;
     cfg_vote_interval := Qc_of_Z 100; cfg_min_num_weights := 1;
     cfg_print_interval := Qc_of_Z 5 |}.

Definition scenario_vali (cfg : vali_config) (files : gmap string dict) : vali :=
  {| config := cfg; network := cfg.(cfg_network); netuid := cfg.(cfg_netuid);
     has_subspace := contains "subspace" cfg.(cfg_network);
     namespace := {[ "m1" := "addr1"; "m2" := "addr2" ]};
     address2name := {[ "addr1" := "m1"; "addr2" := "m2" ]};
     last_print := 0%Qc; last_sync_time := 0%Qc; last_vote_time := 0%Qc;
     last_sent := 0%Qc; last_success := 0%Qc;
     errors := 0; requests := 0; successes := 0;
     json_files := files; ticks := 0; calls := [] |}.

(** An environment whose clock starts at [start] and advances one second per
    reading, with the given transport and scoring function. *)
Definition scenario_env (start : Qc) (connect : value → outcome handle)
    (score : handle → outcome pyobj) : env :=
  {| clock := λ n, (start + Qc_of_Z (Z.of_nat n))%Qc;
     c_connect := connect;
     score_module := score;
     c_emoji := λ _, "x";
     c_round := λ q _, q;
     c_shuffle := λ l, l;
     as_completed := λ _ _, Ready 0 ∅;
     c_is_error := λ d, in_dict "error" d;
     subspace_block := 0;
     subspace_get_module := ∅;
     subspace_key2uid := ∅;
     cache_listing := [];
     c_vote := λ _ _, Return VNone;
     c_mean := λ _, VNone;
     c_stdev := λ _, VNone |}.

(** A reachable module that reports the given info. *)
Definition reachable (module_info : dict) (address : value) : outcome handle :=
  Return {| h_address := address; h_info := Return module_info |}.

(** A module that cannot be reached, and one that connects but whose [info]
    call raises. *)
Definition unreachable (e : exn) (address : value) : outcome handle := Raise e.

Definition mute (e : exn) (address : value) : outcome handle :=
  Return {| h_address := address; h_info := Raise e |}.

(** A scoring function that always raises. *)
Definition failing_score_module (module : handle) : outcome pyobj :=
  Raise (Exception "scoring failed").

(** The info that module [m1] reports about itself. *)
Definition m1_info : dict := {[ "name" := VStr "m1"; "ss58_address" := VStr "key1" ]}.

(** A cache holding one record for [m1], of score [w], written at [timestamp]. *)
Definition m1_cached (w timestamp : Qc) : gmap string dict :=
  {[ "local/m1" := {[ "w" := VNum w; "timestamp" := VNum timestamp ]} ]}.

(** A validator on a subspace network whose last vote was cast at [last_vote]. *)
Definition voting_vali (vote_interval last_vote : Qc) : vali :=
  {| config :=
       {| cfg_network := "subspace"; cfg_netuid := VNum 0;
          cfg_batch_size := 2; cfg_timeout := Qc_of_Z 10;
          cfg_max_age := Qc_of_Z 60; cfg_alpha := Qc_frac 1 5;
          cfg_vote_interval := vote_interval; cfg_min_num_weights := 1;
          cfg_print_interval := Qc_of_Z 5 |};
     network := "subspace"; netuid := VNum 0; has_subspace := true;
     namespace := {[ "A" := "addrA"; "B" := "addrB" ]};
     address2name := {[ "addrA" := "A"; "addrB" := "B" ]};
     last_print := 0%Qc; last_sync_time := 0%Qc; last_vote_time := last_vote;
     last_sent := 0%Qc; last_success := 0%Qc;
     errors := 0; requests := 0; successes := 0;
     json_files := ∅; ticks := 0; calls := [] |}.

(** A chain at [block] on which the validator last set weights at block
    [last_update], with one voting slot, for the key ["keyA"]; the cache
    holds the given documents. *)
Definition voting_env (start : Qc) (block last_update : Z) (listing : list json) : env :=
  {| clock := λ n, (start + Qc_of_Z (Z.of_nat n))%Qc;
     c_connect := reachable ∅;
     score_module := default_score_module;
     c_emoji := λ _, "x";
     c_round := λ q _, q;
     c_shuffle := λ l, l;
     as_completed := λ _ _, Ready 0 ∅;
     c_is_error := λ d, in_dict "error" d;
     subspace_block := block;
     subspace_get_module := {[ "last_update" := VNum (Qc_of_Z last_update) ]};
     subspace_key2uid := {[ "keyA" := 7%Z ]};
     cache_listing := listing;
     c_vote := λ _ _, Return (VBool true);
     c_mean := λ _, VNone;
     c_stdev := λ _, VNone |}.

(** A cached record. *)
Definition cached_record (name identity : string) (w timestamp : Qc) : json :=
  JDict {[ "name" := VStr name; "ss58_address" := VStr identity;
           "w" := VNum w; "timestamp" := VNum timestamp ]}.

(** ** Vocabulary for the further properties *)

(** The validator [self] with the cached score of [module] replaced by [v]. *)
Definition with_cached_score (self : vali) (module : string) (v : value) : vali :=
  let name := (resolve_module self module).1 in
  set_json_files
    (<[record_path self (VStr name) :=
         <["w" := v]> (load_module_info self name (Some ∅))]> self.(json_files))
    self.

(** The votes that the cache holds for a validator whose next clock reading
    is number [self.(ticks)]: those of the records that [module_infos] keeps
    with its default [max_age] of 1000. *)
Definition eligible_votes (E : env) (self : vali) : list (value * value * Z) :=
  omap (vote_of E.(subspace_key2uid))
       (fresh_records E (Qc_of_Z 1000) self.(ticks) E.(cache_listing)).

(** [vote] gets past its two guards: the staleness of the last vote is a
    number that is not below [vote_interval], and the network is a voting
    network. *)
Definition vote_due (E : env) (self : vali) : Prop :=
  ∃ v s,
    (vote_staleness E self).1 = Return v ∧ as_num v = Some s ∧
    ¬ (s < self.(config).(cfg_vote_interval))%Qc ∧
    contains "subspace" self.(config).(cfg_network)
    || contains "bittensor" self.(config).(cfg_network) = true.

(** What holds of every vote set that [votes] builds: each key is a string
    with its slot in the ledger's map, and each weight is a number that is at
    least 0. *)
Definition vote_set_ok (key2uid : gmap string Z) (votes : vote_set) : Prop :=
  Forall2 (λ key uid, ∃ k, key = VStr k ∧ key2uid !! k = Some uid)
          votes.(vs_keys) votes.(vs_uids) ∧
  Forall2 (λ w uid, ∃ q, as_num w = Some q ∧ (0 ≤ q)%Qc)
          votes.(vs_weights) votes.(vs_uids).

(** An environment whose chain client raises [e] when votes are submitted. *)
Definition chain_down (e : exn) (E : env) : env :=
  {| clock := E.(clock);
     c_connect := E.(c_connect);
     score_module := E.(score_module);
     c_emoji := E.(c_emoji);
     c_round := E.(c_round);
     c_shuffle := E.(c_shuffle);
     as_completed := E.(as_completed);
     c_is_error := E.(c_is_error);
     subspace_block := E.(subspace_block);
     subspace_get_module := E.(subspace_get_module);
     subspace_key2uid := E.(subspace_key2uid);
     cache_listing := E.(cache_listing);
     c_vote := λ _ _, Raise e;
     c_mean := E.(c_mean);
     c_stdev := E.(c_stdev) |}.
(** The order that [sorted(..., reverse=True)] leaves between neighbours: the
    key of the first is not below the key of the second. *)
Definition not_below {A} (key : A → value) (x y : A) : Prop :=
  py_key_lt (key x) (key y) = Return false.

(** The records that [module_infos] builds carry exactly the keys asked for. *)
Definition has_keys (keys : list string) (info : dict) : Prop :=
  ∀ k, is_Some (info !! k) ↔ k ∈ keys.

(** The sort key that [module_infos] gives to [sorted]. *)
Definition sort_key (field : string) (x : dict) : value :=
  if in_dict field x then dict_get x field VNone else VNum 0.

(** *** Vocabulary for further statements about [epoch] *)

(** The module addresses that [epoch] goes through, in its order. *)
Definition epoch_addresses (E : env) (self : vali) : list string :=
  E.(c_shuffle) (map_to_list self.(namespace)).*2.

(** The results that [c.is_error] accepts, and those it rejects. *)
Definition successful (E : env) (results : list dict) : list dict :=
  List.filter (λ result, negb (E.(c_is_error) result)) results.

Definition failed (E : env) (results : list dict) : list dict :=
  List.filter E.(c_is_error) results.

(** A computation that leaves the value of [f] on the validator alone. *)
Definition preserves {A B} (f : vali → B) (m : M A) : Prop :=
  ∀ self, f (m self).2 = f self.

(** An environment in which no wait on the futures ever completes. *)
Definition stalled (e : exn) (E : env) : env :=
  {| clock := E.(clock);
     c_connect := E.(c_connect);
     score_module := E.(score_module);
     c_emoji := E.(c_emoji);
     c_round := E.(c_round);
     c_shuffle := E.(c_shuffle);
     as_completed := λ _ _, WaitFails e;
     c_is_error := E.(c_is_error);
     subspace_block := E.(subspace_block);
     subspace_get_module := E.(subspace_get_module);
     subspace_key2uid := E.(subspace_key2uid);
     cache_listing := E.(cache_listing);
     c_vote := E.(c_vote);
     c_mean := E.(c_mean);
     c_stdev := E.(c_stdev) |}.

(** * Properties *)

(** ** Rational arithmetic *)

Lemma Qc_eq_Qeq (p q : Qc) : p = q ↔ Qeq p q.
Proof. split; [by intros ->|apply Qc_is_canon]. Qed.

(** Turns a goal over [Qc] into one over [Q], where [lra] and [nra] work. *)
Ltac qc2q :=
  repeat match goal with
  | H : @eq Qc _ _ |- _ => apply Qc_eq_Qeq in H
  end;
  try apply Qc_eq_Qeq;
  unfold Qcle, Qclt, Qcplus, Qcmult, Qcminus, Qcopp, Q2Qc in *; simpl this in *;
  rewrite ?Qred_correct in *.

(** Over the rationals the blend of a weight with itself is that weight; in
    binary64 it need not be (see [binary64_blend]). *)
Lemma ema_same alpha w : ema alpha w w = w.
Proof. unfold ema. ring. Qed.

Lemma ema_zero alpha old : ema alpha 0 old = (old * (1 - alpha))%Qc.
Proof. unfold ema. ring. Qed.

Lemma Qc_leb_le x y : Qc_leb x y = true ↔ (x ≤ y)%Qc.
Proof. unfold Qc_leb. by rewrite bool_decide_eq_true. Qed.

Lemma Qc_min_max_spec x y :
  (x ≤ y ∧ Qc_min x y = x ∧ Qc_max x y = y)%Qc ∨
  (y ≤ x ∧ Qc_min x y = y ∧ Qc_max x y = x)%Qc.
Proof.
  unfold Qc_min, Qc_max, Qc_leb. case_bool_decide; [by left|right].
  split; [|done]. apply Qclt_le_weak. by apply Qcnot_le_lt.
Qed.

Lemma ema_between alpha fresh old :
  (0 < alpha)%Qc → (alpha < 1)%Qc →
  (Qc_min old fresh ≤ ema alpha fresh old)%Qc ∧
  (ema alpha fresh old ≤ Qc_max old fresh)%Qc.
Proof.
  intros H0 H1. unfold ema.
  destruct (Qc_min_max_spec old fresh) as [(Hle & -> & ->)|(Hle & -> & ->)];
    split; qc2q; nra.
Qed.

(** *** Geometric decay *)

Lemma Qc_of_nat_S n : Qc_of_nat (S n) = (Qc_of_nat n + 1)%Qc.
Proof.
  unfold Qc_of_nat, Qc_of_Z. qc2q. rewrite Nat2Z.inj_succ. unfold Z.succ.
  rewrite inject_Z_plus. reflexivity.
Qed.

Lemma Qc_of_nat_nonneg n : (0 ≤ Qc_of_nat n)%Qc.
Proof.
  unfold Qc_of_nat, Qc_of_Z. qc2q. change 0%Q with (inject_Z 0).
  rewrite <- Zle_Qle. lia.
Qed.

Lemma Qc_of_nat_mono n m : (n ≤ m)%nat → (Qc_of_nat n ≤ Qc_of_nat m)%Qc.
Proof.
  intros. unfold Qc_of_nat, Qc_of_Z. qc2q. rewrite <- Zle_Qle. lia.
Qed.

Lemma Qc_of_Z_mono z z' : (z ≤ z')%Z → (Qc_of_Z z ≤ Qc_of_Z z')%Qc.
Proof. intros. unfold Qc_of_Z. qc2q. by rewrite <- Zle_Qle. Qed.

Lemma Qc_le_ceiling (q : Qc) : (q ≤ Qc_of_Z (Qceiling q))%Qc.
Proof. unfold Qc_of_Z. qc2q. apply Qle_ceiling. Qed.

Lemma Qc_mult_nonneg (x y : Qc) : (0 ≤ x)%Qc → (0 ≤ y)%Qc → (0 ≤ x * y)%Qc.
Proof. intros. qc2q. nra. Qed.

Lemma Qcpower_S (q : Qc) n : (q ^ S n = q * q ^ n)%Qc.
Proof. done. Qed.

Lemma Qcpower_nonneg (q : Qc) n : (0 ≤ q)%Qc → (0 ≤ q ^ n)%Qc.
Proof.
  intros Hq. induction n as [|n IH]; [done|]. rewrite Qcpower_S.
  by apply Qc_mult_nonneg.
Qed.

(** A score that is blended with weight 0 again and again is multiplied by
    [1 - alpha] each time. *)
Section decay.
Local Open Scope Qc_scope.

Variable alpha : Qc.
Hypothesis alpha_pos : 0 < alpha.
Hypothesis alpha_lt_1 : alpha < 1.

Let decay_nonneg n : 0 ≤ (1 - alpha) ^ n.
Proof. apply Qcpower_nonneg. qc2q. lra. Qed.

Lemma decay_step s0 n :
  0 ≤ s0 →
  0 ≤ s0 * (1 - alpha) ^ S n ∧ s0 * (1 - alpha) ^ S n ≤ s0 * (1 - alpha) ^ n.
Proof using alpha_pos alpha_lt_1.
  intros Hs. rewrite Qcpower_S.
  pose proof (Qc_mult_nonneg _ _ Hs (decay_nonneg n)) as Hsp.
  replace (s0 * ((1 - alpha) * (1 - alpha) ^ n))
    with ((1 - alpha) * (s0 * (1 - alpha) ^ n)) by ring.
  revert Hsp. generalize (s0 * (1 - alpha) ^ n). intros sp Hsp.
  split; qc2q; nra.
Qed.

(** Bernoulli's inequality, in the form used below. *)
Lemma bernoulli n : (1 + Qc_of_nat n * alpha) * (1 - alpha) ^ n ≤ 1.
Proof using alpha_pos alpha_lt_1.
  induction n as [|n IH].
  - change ((1 - alpha) ^ 0) with 1.
    assert (Qc_of_nat 0 = 0) as -> by (by apply Qc_is_canon).
    qc2q. lra.
  - rewrite Qcpower_S, Qc_of_nat_S.
    pose proof (decay_nonneg n) as Hp. pose proof (Qc_of_nat_nonneg n) as Hn.
    revert IH Hp Hn. generalize ((1 - alpha) ^ n) (Qc_of_nat n).
    intros p k IH Hp Hk.
    assert (0 ≤ (k + 1) * alpha * alpha * p) as Hpos.
    { repeat apply Qc_mult_nonneg; try done; qc2q; lra. }
    qc2q. nra.
Qed.

Lemma decay_vanishes s0 eps :
  0 ≤ s0 → 0 < eps →
  ∃ N, ∀ n, (N ≤ n)%nat → s0 * (1 - alpha) ^ n < eps.
Proof using alpha_pos alpha_lt_1.
  intros Hs Heps.
  set (bound := s0 / (eps * alpha)).
  exists (Z.to_nat (Qceiling bound)). intros n Hn.
  pose proof (bernoulli n) as Hb. pose proof (decay_nonneg n) as Hp.
  assert (bound ≤ Qc_of_nat n) as Hbound.
  { etrans; [apply Qc_le_ceiling|].
    etrans; [|apply (Qc_of_nat_mono _ _ Hn)].
    apply Qc_of_Z_mono. lia. }
  assert (s0 = bound * (eps * alpha)) as Hs0.
  { unfold bound. field. split; intros ->; by eapply Qclt_not_eq. }
  revert Hb Hp Hbound. generalize ((1 - alpha) ^ n) (Qc_of_nat n).
  intros p k Hb Hp Hbound. rewrite Hs0. clear Hs0 Hs. clearbody bound.
  destruct (decide (p = 0)) as [->|Hp0].
  { by replace (bound * (eps * alpha) * 0) with 0 by ring. }
  assert (0 < p) as Hpos.
  { apply Qcle_lt_or_eq in Hp as [?|?]; [done|congruence]. }
  assert (0 ≤ (k - bound) * (alpha * p)) as Hgap.
  { apply Qc_mult_nonneg; qc2q; nra. }
  assert (bound * (alpha * p) < 1) as Hlt by (qc2q; nra).
  replace (bound * (eps * alpha) * p) with (eps * (bound * (alpha * p))) by ring.
  revert Hlt. generalize (bound * (alpha * p)). intros t Ht.
  qc2q. nra.
Qed.
End decay.

(** ** Dictionaries and the info of a module *)

Lemma dict_item_Some (d : dict) k v : d !! k = Some v → dict_item d k = Return v.
Proof. unfold dict_item. by intros ->. Qed.

Lemma dict_item_insert_eq (d : dict) k v : dict_item (<[k:=v]> d) k = Return v.
Proof. apply dict_item_Some, lookup_insert_eq. Qed.

Lemma dict_item_insert_ne (d : dict) k k' v :
  k ≠ k' → dict_item (<[k:=v]> d) k' = dict_item d k'.
Proof. intros. unfold dict_item. by rewrite lookup_insert_ne. Qed.

Lemma in_dict_true k (d : dict) v : d !! k = Some v → in_dict k d = true.
Proof. intros H. unfold in_dict. rewrite bool_decide_eq_true_2; [done|by eexists]. Qed.

Lemma get_module_info_address self module :
  get_module_info self module !! "address" = Some (resolve_module self module).2.
Proof. unfold get_module_info. by simplify_map_eq. Qed.

Lemma get_module_info_name self module :
  get_module_info self module !! "name" = Some (VStr (resolve_module self module).1).
Proof. unfold get_module_info. by simplify_map_eq. Qed.

Lemma get_module_info_w self module :
  get_module_info self module !! "w"
  = load_module_info self (resolve_module self module).1 (Some ∅) !! "w".
Proof. unfold get_module_info. by simplify_map_eq. Qed.

Lemma get_module_info_timestamp self module :
  get_module_info self module !! "timestamp"
  = load_module_info self (resolve_module self module).1 (Some ∅) !! "timestamp".
Proof. unfold get_module_info. by simplify_map_eq. Qed.

Lemma merged_info_name E self module module_info :
  merged_info E self module module_info !! "name"
  = Some (dict_get module_info "name" (VStr (resolve_module self module).1)).
Proof.
  unfold merged_info, dict_update, dict_get. rewrite lookup_insert_ne; [|done].
  rewrite lookup_union, get_module_info_name.
  by destruct (module_info !! "name").
Qed.

Lemma merged_info_address E self module module_info :
  merged_info E self module module_info !! "address"
  = Some (dict_get module_info "address" (resolve_module self module).2).
Proof.
  unfold merged_info, dict_update, dict_get. rewrite lookup_insert_ne; [|done].
  rewrite lookup_union, get_module_info_address.
  by destruct (module_info !! "address").
Qed.

Lemma merged_info_timestamp E self module module_info :
  merged_info E self module module_info !! "timestamp"
  = Some (VNum (E.(clock) (S self.(ticks)))).
Proof. unfold merged_info. by rewrite lookup_insert_eq. Qed.

Lemma merged_info_w E self module module_info :
  module_info !! "w" = None →
  merged_info E self module module_info !! "w" = get_module_info self module !! "w".
Proof.
  intros Hw. unfold merged_info, dict_update. rewrite lookup_insert_ne; [|done].
  by rewrite lookup_union, Hw, (left_id_L None _).
Qed.

(** ** The paths through [eval_module] *)

Ltac unfold_monad H :=
  unfold bind, gets, lift, record_call, modify, c_time, ret, try_except,
    put_json, raise, py_assert in H.

(** Runs [eval_module] in [H] up to the freshness test. *)
Ltac enter_eval_module H Hc Hts :=
  unfold eval_module in H; unfold_monad H;
  unfold py_sub, py_mul, py_add, py_arith, py_lt, py_compare, Qc_ltb in H;
  unfold dict_item at 1 in H; rewrite get_module_info_address in H; cbn in H;
  rewrite Hc in H; cbn in H; rewrite Hts in H; cbn in H.

(** Runs it further, into the [else] branch and past [module.info]. *)
Ltac enter_stale H Hstale Hinfo :=
  rewrite bool_decide_eq_false_2 in H by done; rewrite Hinfo in H; cbn in H;
  rewrite ?(in_dict_true _ _ _ (get_module_info_address _ _)),
    ?(in_dict_true _ _ _ (get_module_info_name _ _)) in H; cbn in H;
  match type of Hinfo with
  | _ = Return ?mi =>
      match type of H with
      | context [dict_update (get_module_info ?self ?module) mi] =>
          match type of H with
          | context [clock ?E (S (ticks self))] =>
              fold (merged_info E self module mi) in H
          end
      end
  | _ => idtac
  end.

Ltac dict_simpl H :=
  repeat first
    [ rewrite dict_item_insert_eq in H
    | rewrite dict_item_insert_ne in H by done
    | rewrite (dict_item_Some _ _ _ (merged_info_name _ _ _ _)) in H
    | rewrite (dict_item_Some _ _ _ (merged_info_timestamp _ _ _ _)) in H
    | rewrite (dict_item_Some _ _ _ (merged_info_address _ _ _ _)) in H
    | progress cbn in H ].

Ltac lookup_simpl :=
  cbn; rewrite ?lookup_insert_eq;
  repeat (rewrite lookup_insert_ne; [|done]); rewrite ?lookup_insert_eq.

(** [c.connect] raising: the exception leaves [eval_module], before the
    request is counted. *)
Lemma eval_module_connect_raises E self module e :
  E.(c_connect) (resolve_module self module).2 = Raise e →
  eval_module E module self
  = (Raise e,
     set_calls (self.(calls) ++ [Connect (resolve_module self module).2]) self).
Proof.
  intros Hc. unfold eval_module, bind, gets, lift, record_call, modify.
  unfold dict_item. rewrite get_module_info_address. cbn. by rewrite Hc.
Qed.

(** The freshness short-circuit. *)
Lemma eval_module_fresh E self module h s :
  E.(c_connect) (resolve_module self module).2 = Return h →
  staleness E self module = Some s →
  (s < self.(config).(cfg_max_age))%Qc →
  ∃ r self',
    eval_module E module self = (Return r, self') ∧
    r !! "w" = Some (dict_get (get_module_info self module) "w" (VNum 0)) ∧
    r !! "module" = Some (VStr (resolve_module self module).1) ∧
    self'.(calls) = self.(calls) ++ [Connect (resolve_module self module).2] ∧
    self'.(json_files) = self.(json_files).
Proof.
  intros Hc Hs Hlt. unfold staleness in Hs.
  destruct (as_num _) as [ts|] eqn:Hts; [|done]. simplify_eq.
  destruct (eval_module E module self) as [o self'] eqn:Heval.
  enter_eval_module Heval Hc Hts.
  rewrite bool_decide_eq_true_2 in Heval by done.
  rewrite (dict_item_Some _ _ _ (get_module_info_name _ _)),
    (dict_item_Some _ _ _ (get_module_info_address _ _)) in Heval.
  cbn in Heval. simplify_eq.
  eexists _, _. split; [reflexivity|]. by lookup_simpl.
Qed.

(** [module.info] raising on a stale record: the exception leaves
    [eval_module] and nothing is persisted. *)
Lemma eval_module_info_raises E self module h s e :
  E.(c_connect) (resolve_module self module).2 = Return h →
  staleness E self module = Some s →
  ¬ (s < self.(config).(cfg_max_age))%Qc →
  h.(h_info) = Raise e →
  ∃ self',
    eval_module E module self = (Raise e, self') ∧
    self'.(json_files) = self.(json_files).
Proof.
  intros Hc Hs Hstale Hinfo. unfold staleness in Hs.
  destruct (as_num _) as [ts|] eqn:Hts; [|done]. simplify_eq.
  destruct (eval_module E module self) as [o self'] eqn:Heval.
  enter_eval_module Heval Hc Hts.
  rewrite bool_decide_eq_false_2 in Heval by done. rewrite Hinfo in Heval.
  cbn in Heval. simplify_eq. by eexists.
Qed.

(** The scoring step raising on a stale record: what happens depends on the
    score [w] of the in-memory record. *)
Lemma eval_module_scoring_raises E self module h s module_info e :
  E.(c_connect) (resolve_module self module).2 = Return h →
  staleness E self module = Some s →
  ¬ (s < self.(config).(cfg_max_age))%Qc →
  h.(h_info) = Return module_info →
  scoring E h = Raise e →
  ∃ self',
    match merged_info E self module module_info !! "w" with
    | None =>
        eval_module E module self = (Raise (KeyError "w"), self') ∧
        self'.(json_files) = self.(json_files)
    | Some info_w =>
        match as_num info_w with
        | None =>
            eval_module E module self = (Raise TypeError, self') ∧
            self'.(json_files) = self.(json_files)
        | Some old =>
            ∃ r name final,
              eval_module E module self = (Return r, self') ∧
              r !! "w" = Some (VNum (ema self.(config).(cfg_alpha) 0 old)) ∧
              name = dict_get module_info "name" (VStr (resolve_module self module).1) ∧
              r !! "module" = Some name ∧
              final !! "w" = Some (VNum (ema self.(config).(cfg_alpha) 0 old)) ∧
              self'.(json_files)
                = <[record_path self name := final]> self.(json_files)
        end
    end.
Proof.
  intros Hc Hs Hstale Hinfo Hscore. unfold staleness in Hs.
  destruct (as_num _) as [ts|] eqn:Hts; [|done]. simplify_eq.
  destruct (eval_module E module self) as [o self'] eqn:Heval. exists self'.
  enter_eval_module Heval Hc Hts. enter_stale Heval Hstale Hinfo.
  unfold scoring in Hscore.
  destruct (score_module E h) as [resp|]; [destruct (check_response resp); [done|]|];
    cbn in Heval.
  all: dict_simpl Heval.
  all: unfold dict_item in Heval at 1.
  all: destruct (merged_info E self module module_info !! "w") as [info_w|] eqn:Hw;
    [|by simplify_eq].
  all: cbn in Heval; destruct (as_num info_w) as [old|] eqn:Hold; cbn in Heval;
    [|by simplify_eq].
  all: dict_simpl Heval; simplify_eq.
  all: eexists _, _, _; split; [reflexivity|]; lookup_simpl.
  all: done.
Qed.

Lemma dict_update_lookup (d r : dict) k v :
  d !! k = Some v → dict_update d r !! k = Some (dict_get r k v).
Proof.
  intros Hd. unfold dict_update, dict_get. rewrite lookup_union, Hd.
  by destruct (r !! k).
Qed.

Lemma dict_update_lookup_new (d r : dict) k v :
  r !! k = Some v → dict_update d r !! k = Some v.
Proof.
  intros Hr. unfold dict_update. rewrite lookup_union, Hr. by destruct (d !! k).
Qed.

Lemma check_response_w response d :
  check_response response = Return d → is_Some (d !! "w").
Proof.
  destruct response as [q|b|d'|]; cbn; try (intros; simplify_eq; by eexists).
  unfold in_dict. case_bool_decide; intros; by simplify_eq.
Qed.

Lemma scoring_w E h response : scoring E h = Return response → is_Some (response !! "w").
Proof.
  unfold scoring. destruct (score_module E h); [|done]. apply check_response_w.
Qed.

(** The scoring step returning on a stale record: the response is merged into
    the record before the blend, so both operands of the blend are the fresh
    weight. *)
Lemma eval_module_scoring_returns E self module h s module_info response fresh ts :
  E.(c_connect) (resolve_module self module).2 = Return h →
  staleness E self module = Some s →
  ¬ (s < self.(config).(cfg_max_age))%Qc →
  h.(h_info) = Return module_info →
  scoring E h = Return response →
  as_num (dict_get response "w" VNone) = Some fresh →
  as_num (dict_get response "timestamp" (VNum (E.(clock) (S self.(ticks))))) = Some ts →
  ∃ r self' name final,
    eval_module E module self = (Return r, self') ∧
    r !! "w" = Some (VNum (ema self.(config).(cfg_alpha) fresh fresh)) ∧
    name = dict_get response "name"
             (dict_get module_info "name" (VStr (resolve_module self module).1)) ∧
    r !! "module" = Some name ∧
    final !! "w" = Some (VNum (ema self.(config).(cfg_alpha) fresh fresh)) ∧
    self'.(json_files) = <[record_path self name := final]> self.(json_files).
Proof.
  intros Hc Hs Hstale Hinfo Hscore Hfresh Htime. unfold staleness in Hs.
  destruct (as_num _) as [t0|] eqn:Hts; [|done]. simplify_eq.
  destruct (scoring_w _ _ _ Hscore) as [w Hw].
  unfold dict_get in Hfresh. rewrite Hw in Hfresh. cbn in Hfresh.
  destruct (eval_module E module self) as [o self'] eqn:Heval.
  enter_eval_module Heval Hc Hts. enter_stale Heval Hstale Hinfo.
  unfold scoring in Hscore.
  destruct (score_module E h) as [resp|]; [|done]. rewrite Hscore in Heval.
  cbn in Heval.
  rewrite (dict_item_Some _ _ _
             (dict_update_lookup _ response _ _ (merged_info_timestamp _ _ _ _)))
    in Heval.
  cbn in Heval. rewrite Htime in Heval. cbn in Heval.
  rewrite (dict_item_Some _ _ _ Hw) in Heval. cbn in Heval.
  rewrite Hfresh in Heval. cbn in Heval.
  rewrite dict_item_insert_ne in Heval by done.
  rewrite (dict_item_Some _ _ _ (dict_update_lookup_new _ _ _ _ Hw)) in Heval.
  cbn in Heval. rewrite Hfresh in Heval. cbn in Heval.
  repeat first
    [ rewrite dict_item_insert_eq in Heval
    | rewrite dict_item_insert_ne in Heval by done
    | rewrite (dict_item_Some _ _ _
                 (dict_update_lookup _ response _ _ (merged_info_name _ _ _ _)))
        in Heval
    | rewrite (dict_item_Some _ _ _
                 (dict_update_lookup _ response _ _ (merged_info_address _ _ _ _)))
        in Heval
    | progress cbn in Heval ].
  simplify_eq.
  eexists _, _, _, _. split; [reflexivity|]. lookup_simpl. done.
Qed.

(** *** What no method changes

    The configuration, the network and the namespace are read-only for the
    methods modelled here; [keeps m] says so of a computation [m]. *)

Definition frame (self : vali)
    : vali_config * string * value * bool * gmap string string * gmap string string :=
  (self.(config), self.(network), self.(netuid), self.(has_subspace),
   self.(namespace), self.(address2name)).

Definition keeps {A} (m : M A) : Prop := ∀ self, frame (m self).2 = frame self.

Lemma keeps_ret {A} (a : A) : keeps (ret a).
Proof. done. Qed.

Lemma keeps_raise {A} e : keeps (@raise A e).
Proof. done. Qed.

Lemma keeps_lift {A} (o : outcome A) : keeps (lift o).
Proof. done. Qed.

Lemma keeps_gets {A} (f : vali → A) : keeps (gets f).
Proof. done. Qed.

Lemma keeps_modify f : (∀ self, frame (f self) = frame self) → keeps (modify f).
Proof. intros Hf self. apply Hf. Qed.

Lemma keeps_bind {A B} (m : M A) (k : A → M B) :
  keeps m → (∀ a, keeps (k a)) → keeps (bind m k).
Proof.
  intros Hm Hk self. unfold bind. specialize (Hm self).
  destruct (m self) as [[a|e] self']; [|done]. cbn in Hm.
  by rewrite Hk.
Qed.

Lemma keeps_try_except {A} (m : M A) handler :
  keeps m → (∀ e, keeps (handler e)) → keeps (try_except m handler).
Proof.
  intros Hm Hh self. unfold try_except. specialize (Hm self).
  destruct (m self) as [[a|e] self']; [done|]. cbn in Hm.
  by rewrite Hh.
Qed.

Lemma keeps_c_time E : keeps (c_time E).
Proof. done. Qed.

Lemma keeps_record_call c : keeps (record_call c).
Proof. done. Qed.

Lemma keeps_put_json path d : keeps (put_json path d).
Proof. done. Qed.

Lemma keeps_py_assert b msg : keeps (py_assert b msg).
Proof. by destruct b. Qed.

Ltac keeps_step :=
  first
    [ apply keeps_ret | apply keeps_raise | apply keeps_lift | apply keeps_gets
    | apply keeps_c_time | apply keeps_record_call | apply keeps_put_json
    | apply keeps_py_assert
    | apply keeps_modify; done
    | apply keeps_bind; [|intros ?]
    | apply keeps_try_except; [|intros ?]
    | case_match ].

(** Whatever path is taken, [eval_module] leaves the configuration, the
    network and the namespace of the validator alone. *)
Lemma eval_module_keeps E module : keeps (eval_module E module).
Proof. unfold eval_module. repeat keeps_step. Qed.

Lemma frame_storage_path self self' :
  frame self' = frame self → storage_path self' = storage_path self.
Proof. unfold frame, storage_path. intros [= _ Hn Hu _ _ _]. by rewrite Hn, Hu. Qed.

Lemma frame_resolve_module self self' module :
  frame self' = frame self → resolve_module self' module = resolve_module self module.
Proof. unfold frame, resolve_module. intros [= _ _ _ _ Hn Ha]. by rewrite Hn, Ha. Qed.

(** What a returning evaluation leaves behind: either the short-circuit was
    taken and the cache is untouched, or a record carrying the returned score
    was written under the name that is returned as [module]. *)
Lemma eval_module_returns_inv E self module r self' :
  eval_module E module self = (Return r, self') →
  (r !! "w" = Some (dict_get (get_module_info self module) "w" (VNum 0)) ∧
   self'.(json_files) = self.(json_files)) ∨
  (∃ name final w,
     r !! "module" = Some name ∧ r !! "w" = Some w ∧ final !! "w" = Some w ∧
     self'.(json_files) = <[record_path self name := final]> self.(json_files)).
Proof.
  intros Heval. unfold eval_module in Heval. unfold_monad Heval.
  unfold dict_item at 1 in Heval. rewrite get_module_info_address in Heval.
  cbn in Heval.
  repeat (case_match; unfold ret, raise in *; simplify_eq/=).
  all: try (left; split; [by lookup_simpl|done]).
  all: right.
  all: repeat match goal with
       | H : dict_item (<[_:=_]> _) _ = Return _ |- _ =>
           first [ rewrite dict_item_insert_eq in H
                 | rewrite dict_item_insert_ne in H by done ]
       end; simplify_eq.
  all: eexists _, _, _; lookup_simpl; repeat split; try done.
  all: lookup_simpl; try done.
Qed.

(** Reading back a record that was written under the registered name. *)
Lemma get_module_info_reload self self' module final k :
  frame self' = frame self →
  self'.(json_files)
    = <[record_path self (VStr (resolve_module self module).1) := final]>
        self.(json_files) →
  k ≠ "address" → k ≠ "name" → k ≠ "schema" →
  get_module_info self' module !! k = final !! k.
Proof.
  intros Hframe Hfiles ? ? ?. unfold get_module_info.
  do 3 (rewrite lookup_insert_ne; [|done]).
  unfold load_module_info, get_json.
  rewrite (frame_resolve_module _ _ _ Hframe), (frame_storage_path _ _ Hframe).
  rewrite Hfiles. unfold record_path. cbn. by rewrite lookup_insert_eq.
Qed.

(** A full evaluation that returns has persisted the record it returns the
    score of, stamped. *)
Lemma eval_module_stale_record E self module h s module_info r self' :
  E.(c_connect) (resolve_module self module).2 = Return h →
  staleness E self module = Some s →
  ¬ (s < self.(config).(cfg_max_age))%Qc →
  h.(h_info) = Return module_info →
  eval_module E module self = (Return r, self') →
  ∃ name final w,
    r !! "module" = Some name ∧ r !! "w" = Some w ∧ final !! "w" = Some w ∧
    final !! "timestamp" = Some (stamp E self h) ∧
    self'.(json_files) = <[record_path self name := final]> self.(json_files).
Proof.
  intros Hc Hs Hstale Hinfo Heval. unfold staleness in Hs.
  destruct (as_num _) as [t0|] eqn:Hts; [|done]. simplify_eq.
  enter_eval_module Heval Hc Hts. enter_stale Heval Hstale Hinfo.
  unfold stamp, scoring.
  destruct (score_module E h) as [resp|e]; cbn in Heval;
    [destruct (check_response resp) as [response|e]; cbn in Heval|].
  all: repeat (case_match; unfold ret, raise in *; simplify_eq/=).
  all: repeat match goal with
       | H : dict_item (<[_:=_]> _) _ = Return _ |- _ =>
           first [ rewrite dict_item_insert_eq in H
                 | rewrite dict_item_insert_ne in H by done ]
       end; simplify_eq.
  all: eexists _, _, _; lookup_simpl; repeat split; try done.
  all: do 2 (rewrite lookup_insert_ne; [|done]).
  all: first [ apply dict_update_lookup, merged_info_timestamp
             | apply merged_info_timestamp ].
Qed.

Lemma get_module_info_same_files self self' module :
  frame self' = frame self →
  self'.(json_files) = self.(json_files) →
  get_module_info self' module = get_module_info self module.
Proof.
  intros Hframe Hfiles. unfold get_module_info, load_module_info, get_json.
  by rewrite (frame_resolve_module _ _ _ Hframe), (frame_storage_path _ _ Hframe),
    Hfiles.
Qed.

Lemma eval_module_frame E module self o self' :
  eval_module E module self = (o, self') → frame self' = frame self.
Proof.
  intros Heval. pose proof (eval_module_keeps E module self) as Hframe.
  by rewrite Heval in Hframe.
Qed.

Lemma frame_max_age self self' :
  frame self' = frame self →
  self'.(config).(cfg_max_age) = self.(config).(cfg_max_age).
Proof. unfold frame. by intros [= -> _ _ _ _ _]. Qed.

(** ** The claims about [eval_module] *)

(** C1 (found false on the code).  The persisted and returned score is meant
    to be [alpha * w_fresh + (1 - alpha) * w_old].  In the scenario of the
    specification (module [m1], no cached score, the default scoring function
    answering weight 1, [alpha = 1/5]) the evaluation returns and persists
    the score 1, not 1/5: [info.update(response)] has overwritten [info['w']]
    with the fresh weight before the blend reads it. *)
Theorem eval_module_scenario_score :
  let self := scenario_vali (scenario_config (Qc_frac 1 5) (Qc_of_Z 60) 2) ∅ in
  let E := scenario_env (Qc_of_Z 1000) (reachable m1_info) default_score_module in
  ∃ r self' final,
    eval_module E "m1" self = (Return r, self') ∧
    r !! "w" = Some (VNum 1) ∧
    self'.(json_files) !! "local/m1" = Some final ∧
    final !! "w" = Some (VNum 1) ∧
    ema (Qc_frac 1 5) 1 0 = Qc_frac 1 5 ∧
    (1 : Qc) ≠ Qc_frac 1 5.
Proof.
  intros self E.
  destruct (eval_module_scoring_returns E self "m1"
              {| h_address := VStr "addr1"; h_info := Return m1_info |}
              (E.(clock) 0 - 0)%Qc m1_info
              {[ "success" := VBool true; "w" := VNum 1 ]}
              1%Qc (E.(clock) 1))
    as (r & self' & name & final & Heval & Hr & Hname & _ & Hfinal & Hfiles);
    try (vm_compute; reflexivity).
  { vm_compute. intros H. discriminate H. }
  rewrite ema_same in Hr, Hfinal.
  exists r, self', final. split; [done|]. split; [done|].
  split; [|split; [done|]].
  - rewrite Hfiles, Hname. vm_compute record_path. by rewrite lookup_insert_eq.
  - split; [by apply Qc_is_canon|]. intros H. apply Qc_eq_Qeq in H. by vm_compute in H.
Qed.

(** C2, as amended.  [c.connect] is called before the freshness test.  When
    it returns and the cached record is younger than [max_age], [eval_module]
    returns the cached score, the connect is its only call to the transport
    (no [info], no scoring) and the cache is not written.  Such an evaluation
    does not refresh the record: a second evaluation is served from the cache
    again when it is made while the record is still younger than [max_age].
    A full evaluation that returns persists the record with the score it
    returns, stamped with the clock reading of [info['timestamp'] = c.time()]
    (or with the [timestamp] of the response, when it carries one): when the
    record is kept under the registered name, a second evaluation made less
    than [max_age] after that stamp makes no [info] or scoring call and
    returns the score of the first.  In both cases [c.connect] returns. *)
Theorem eval_module_within_max_age :
  (∀ E self module h s,
     E.(c_connect) (resolve_module self module).2 = Return h →
     staleness E self module = Some s →
     (s < self.(config).(cfg_max_age))%Qc →
     ∃ r self',
       eval_module E module self = (Return r, self') ∧
       r !! "w" = Some (dict_get (get_module_info self module) "w" (VNum 0)) ∧
       self'.(calls) = self.(calls) ++ [Connect (resolve_module self module).2] ∧
       self'.(json_files) = self.(json_files)) ∧
  (∀ E1 E2 self module h1 h2 s1,
     let first := eval_module E1 module self in
     E1.(c_connect) (resolve_module self module).2 = Return h1 →
     staleness E1 self module = Some s1 →
     (s1 < self.(config).(cfg_max_age))%Qc →
     E2.(c_connect) (resolve_module self module).2 = Return h2 →
     (s1 + (E2.(clock) first.2.(ticks) - E1.(clock) self.(ticks))
      < self.(config).(cfg_max_age))%Qc →
     ∃ r1 r2 self2,
       first.1 = Return r1 ∧
       eval_module E2 module first.2 = (Return r2, self2) ∧
       r2 !! "w" = r1 !! "w" ∧
       self2.(calls) = first.2.(calls) ++ [Connect (resolve_module self module).2] ∧
       self2.(json_files) = first.2.(json_files)) ∧
  (∀ E1 E2 self module h1 h2 s1 module_info r1 stamped,
     let first := eval_module E1 module self in
     E1.(c_connect) (resolve_module self module).2 = Return h1 →
     staleness E1 self module = Some s1 →
     ¬ (s1 < self.(config).(cfg_max_age))%Qc →
     h1.(h_info) = Return module_info →
     first.1 = Return r1 →
     r1 !! "module" = Some (VStr (resolve_module self module).1) →
     as_num (stamp E1 self h1) = Some stamped →
     E2.(c_connect) (resolve_module self module).2 = Return h2 →
     (E2.(clock) first.2.(ticks) - stamped < self.(config).(cfg_max_age))%Qc →
     ∃ r2 self2,
       eval_module E2 module first.2 = (Return r2, self2) ∧
       r2 !! "w" = r1 !! "w" ∧
       self2.(calls) = first.2.(calls) ++ [Connect (resolve_module self module).2] ∧
       self2.(json_files) = first.2.(json_files)).
Proof.
  split; [|split].
  - intros E self module h s Hc Hs Hlt.
    destruct (eval_module_fresh E self module h s Hc Hs Hlt)
      as (r & self' & ? & ? & ? & ? & ?).
    by exists r, self'.
  - intros E1 E2 self module h1 h2 s1 first Hc1 Hs1 Hlt1 Hc2 Hlt2.
    destruct (eval_module_fresh E1 self module h1 s1 Hc1 Hs1 Hlt1)
      as (r1 & self1 & Heval1 & Hw1 & _ & _ & Hfiles1).
    subst first. rewrite Heval1 in *. cbn [fst snd] in *.
    pose proof (eval_module_frame _ _ _ _ _ Heval1) as Hframe.
    pose proof (get_module_info_same_files _ _ module Hframe Hfiles1) as Hinfo.
    unfold staleness in Hs1.
    destruct (as_num _) as [ts|] eqn:Hts; [|done]. injection Hs1 as <-.
    destruct (eval_module_fresh E2 self1 module h2
                (E2.(clock) self1.(ticks) - ts)%Qc)
      as (r2 & self2 & Heval2 & Hw2 & _ & Hcalls & Hfiles2).
    + by rewrite (frame_resolve_module _ _ _ Hframe).
    + unfold staleness. by rewrite Hinfo, Hts.
    + rewrite (frame_max_age _ _ Hframe).
      replace (clock E2 (ticks self1) - ts)%Qc
        with (clock E1 (ticks self) - ts
              + (clock E2 (ticks self1) - clock E1 (ticks self)))%Qc by ring.
      done.
    + exists r1, r2, self2. split; [done|]. split; [done|].
      rewrite Hw2, Hw1, Hinfo. split; [done|].
      by rewrite <- (frame_resolve_module _ _ _ Hframe).
  - intros E1 E2 self module h1 h2 s1 module_info r1 stamped first
      Hc1 Hs1 Hstale Hinfo Hfirst Hname Hstamp Hc2 Hlt.
    subst first. destruct (eval_module E1 module self) as [o self1] eqn:Heval1.
    cbn [fst snd] in *. subst o.
    destruct (eval_module_stale_record E1 self module h1 s1 module_info r1 self1
                Hc1 Hs1 Hstale Hinfo Heval1)
      as (name & final & w & Hmod & Hw1 & Hfinal & Htime & Hput).
    rewrite Hname in Hmod. injection Hmod as <-.
    pose proof (eval_module_frame _ _ _ _ _ Heval1) as Hframe.
    destruct (eval_module_fresh E2 self1 module h2
                (E2.(clock) self1.(ticks) - stamped)%Qc)
      as (r2 & self2 & Heval2 & Hw2 & _ & Hcalls & Hfiles2).
    + by rewrite (frame_resolve_module _ _ _ Hframe).
    + unfold staleness, dict_get.
      rewrite (get_module_info_reload self self1 module final "timestamp"
                 Hframe Hput) by done.
      rewrite Htime. cbn. by rewrite Hstamp.
    + by rewrite (frame_max_age _ _ Hframe).
    + exists r2, self2. split; [done|].
      rewrite Hw2. unfold dict_get.
      rewrite (get_module_info_reload self self1 module final "w" Hframe Hput)
        by done.
      rewrite Hfinal, Hw1. split; [done|].
      by rewrite <- (frame_resolve_module _ _ _ Hframe).
Qed.

(** Where the cache does not serve an evaluation.  A record 10 s old and a
    module that cannot be reached: [eval_module] raises.  A record 50 s old,
    evaluated at time 1000 (served from the cache) and again at time 1020:
    the second is a full evaluation, although the calls are 20 s apart and
    [max_age] is 60.  A module registered as [m1] that reports the name
    [server1]: its record is written under the reported name, so a second
    evaluation, two seconds later, finds no record under the registered one
    and calls the module again. *)
Theorem eval_module_not_served_from_cache :
  let cfg := scenario_config (Qc_frac 1 5) (Qc_of_Z 60) 2 in
  (* a record 10 s old, and a module that cannot be reached *)
  (let self := scenario_vali cfg (m1_cached 1 (Qc_of_Z 990)) in
   let E := scenario_env (Qc_of_Z 1000) (unreachable ConnectionError)
              default_score_module in
   (∃ s, staleness E self "m1" = Some s ∧ (s < self.(config).(cfg_max_age))%Qc) ∧
   (eval_module E "m1" self).1 = Raise ConnectionError) ∧
  (* a record 50 s old, evaluated at 1000 and again at 1020 *)
  (let self := scenario_vali cfg (m1_cached 1 (Qc_of_Z 950)) in
   let E1 := scenario_env (Qc_of_Z 1000) (reachable m1_info) default_score_module in
   let E2 := scenario_env (Qc_of_Z 1018) (reachable m1_info) default_score_module in
   let first := eval_module E1 "m1" self in
   let second := eval_module E2 "m1" first.2 in
   (E2.(clock) first.2.(ticks) - E1.(clock) self.(ticks) = Qc_of_Z 20)%Qc ∧
   first.2.(calls) = [Connect (VStr "addr1")] ∧
   second.2.(calls)
   = [Connect (VStr "addr1");
      Connect (VStr "addr1"); ModuleInfo (VStr "addr1"); ScoreModule (VStr "addr1")]) ∧
  (* a module registered as m1 that reports the name server1 *)
  (let self := scenario_vali cfg ∅ in
   let E := scenario_env (Qc_of_Z 1000) (reachable {[ "name" := VStr "server1" ]})
              default_score_module in
   let first := eval_module E "m1" self in
   let second := eval_module E "m1" first.2 in
   (∃ r1, first.1 = Return r1 ∧ r1 !! "module" = Some (VStr "server1")) ∧
   second.2.(calls)
   = [Connect (VStr "addr1"); ModuleInfo (VStr "addr1"); ScoreModule (VStr "addr1");
      Connect (VStr "addr1"); ModuleInfo (VStr "addr1"); ScoreModule (VStr "addr1")]).
Proof.
  intros cfg. split; [|split].
  - intros self E. split.
    + eexists. split; [reflexivity|]. by vm_compute.
    + by rewrite (eval_module_connect_raises E self "m1" ConnectionError).
  - intros self E1 E2 first second. split; [|split]; vm_compute; reflexivity.
  - intros self E first second. split; [eexists; split|]; vm_compute; reflexivity.
Qed.



(** C9.  On a first evaluation (no cached score, none reported by the
    module) of a stale record, a scoring step that raises makes [eval_module]
    raise [KeyError] at the blend; nothing is persisted. *)
Theorem eval_module_first_failure_raises E self module h s module_info e :
  E.(c_connect) (resolve_module self module).2 = Return h →
  staleness E self module = Some s →
  ¬ (s < self.(config).(cfg_max_age))%Qc →
  h.(h_info) = Return module_info →
  get_module_info self module !! "w" = None →
  module_info !! "w" = None →
  scoring E h = Raise e →
  ∃ self',
    eval_module E module self = (Raise (KeyError "w"), self') ∧
    self'.(json_files) = self.(json_files).
Proof.
  intros Hc Hs Hstale Hinfo Hcached Hreported Hscore.
  destruct (eval_module_scoring_raises E self module h s module_info e
              Hc Hs Hstale Hinfo Hscore) as [self' H].
  rewrite (merged_info_w _ _ _ _ Hreported), Hcached in H. by exists self'.
Qed.

(** C10, as amended.  Every call of [eval_module] in which [c.connect]
    returns counts one request, whichever path it then takes, the freshness
    short-circuit included; a call in which [c.connect] raises counts none. *)
Theorem eval_module_counts_request :
  (∀ E self module h,
     E.(c_connect) (resolve_module self module).2 = Return h →
     (eval_module E module self).2.(requests) = (self.(requests) + 1)%Z) ∧
  (∀ E self module e,
     E.(c_connect) (resolve_module self module).2 = Raise e →
     (eval_module E module self).1 = Raise e ∧
     (eval_module E module self).2.(requests) = self.(requests)).
Proof.
  split.
  - intros E self module h Hc.
    unfold eval_module, bind, gets, lift, record_call, modify, c_time, ret,
      try_except, put_json, raise, py_assert.
    unfold dict_item at 1. rewrite get_module_info_address. cbn. rewrite Hc. cbn.
    repeat (case_match; unfold ret, raise in *; simplify_eq/=; try done).
  - intros E self module e Hc.
    by rewrite (eval_module_connect_raises E self module e Hc).
Qed.

(** The address of [m1] is looked up, [c.connect] raises, and no request is
    counted. *)
Theorem eval_module_unreachable_uncounted :
  let self := scenario_vali (scenario_config (Qc_frac 1 5) (Qc_of_Z 60) 2)
                (m1_cached 1 (Qc_of_Z 990)) in
  let E := scenario_env (Qc_of_Z 1000) (unreachable ConnectionError)
             default_score_module in
  resolve_module self "m1" = ("m1", VStr "addr1") ∧
  (eval_module E "m1" self).1 = Raise ConnectionError ∧
  (eval_module E "m1" self).2.(requests) = self.(requests).
Proof. intros self E. split; [|split]; vm_compute; reflexivity. Qed.

(** ** Blending and repeated failure *)

Lemma well_timed_default E h response t :
  scoring E h = Return response → well_timed E h →
  is_Some (as_num (dict_get response "timestamp" (VNum t))).
Proof.
  unfold well_timed. intros ->. unfold dict_get.
  destruct (response !! "timestamp"); [done|]. intros _. by eexists.
Qed.

(** One failing evaluation: the outcome and what the next one will read. *)
Lemma eval_module_failing_round E self module v old :
  fails_in_scoring E self module →
  get_module_info self module !! "w" = Some v →
  as_num v = Some old →
  ∃ r self',
    eval_module E module self = (Return r, self') ∧
    r !! "w" = Some (VNum (ema self.(config).(cfg_alpha) 0 old)) ∧
    get_module_info self' module !! "w"
      = Some (VNum (ema self.(config).(cfg_alpha) 0 old)) ∧
    self'.(config) = self.(config).
Proof.
  intros (h & s & mi & e & Hc & Hs & Hstale & Hinfo & Hmw & Hname & Hscore) Hv Hold.
  destruct (eval_module_scoring_raises E self module h s mi e
              Hc Hs Hstale Hinfo Hscore) as [self' H].
  rewrite (merged_info_w _ _ _ _ Hmw), Hv, Hold in H.
  destruct H as (r & name & final & Heval & Hr & Hn & _ & Hfinal & Hfiles).
  rewrite Hname in Hn. subst name.
  pose proof (eval_module_keeps E module self) as Hframe.
  rewrite Heval in Hframe. cbn in Hframe.
  exists r, self'. split; [done|]. split; [done|]. split.
  - by rewrite (get_module_info_reload self self' module final "w" Hframe Hfiles).
  - unfold frame in Hframe. by injection Hframe.
Qed.

Lemma eval_rounds_decay module envs : ∀ self v s0,
  all_fail_in_scoring module envs self →
  get_module_info self module !! "w" = Some v →
  as_num v = Some s0 →
  Forall2 (λ o n, ∃ r, o = Return r ∧
             r !! "w" = Some (VNum (s0 * (1 - self.(config).(cfg_alpha)) ^ S n)%Qc))
          (eval_rounds module envs self).1 (seq 0 (length envs)).
Proof.
  induction envs as [|E envs IH]; intros self v s0 Hall Hv Hs0; [constructor|].
  destruct Hall as [Hfail Hall].
  destruct (eval_module_failing_round E self module v s0 Hfail Hv Hs0)
    as (r & self' & Heval & Hr & Hnext & Hcfg).
  cbn [eval_rounds]. rewrite Heval in *. cbn in Hall.
  specialize (IH self' _ _ Hall Hnext eq_refl).
  destruct (eval_rounds module envs self') as [os self''] eqn:Hrounds. cbn in *.
  constructor.
  - exists r. split; [done|]. rewrite Hr. do 2 f_equal. rewrite ema_zero.
    cbn [Qcpower]. ring.
  - rewrite <- fmap_S_seq. apply Forall2_fmap_r.
    eapply Forall2_impl; [exact IH|]. cbn. intros o n (r' & -> & Hr').
    exists r'. split; [done|]. rewrite Hr', Hcfg. do 2 f_equal.
    rewrite ema_zero. cbn [Qcpower].
    generalize ((1 - cfg_alpha (config self)) ^ n)%Qc. intros p. ring.
Qed.



(** ** The claims about [eval_module], on concrete validators *)

(** Closes a goal about concrete data by evaluation. *)
Ltac concrete :=
  first [ vm_compute; reflexivity
        | vm_compute; let H := fresh in intros H; discriminate H
        | vm_compute; done ].

Lemma eval_module_counts_request_witness :
  let self := scenario_vali (scenario_config (Qc_frac 1 5) (Qc_of_Z 60) 2)
                (m1_cached 1 (Qc_of_Z 990)) in
  let E := scenario_env (Qc_of_Z 1000) (reachable m1_info) default_score_module in
  let E' := scenario_env (Qc_of_Z 1000) (unreachable ConnectionError)
              default_score_module in
  (eval_module E "m1" self).2.(requests) = (self.(requests) + 1)%Z ∧
  (eval_module E' "m1" self).1 = Raise ConnectionError ∧
  (eval_module E' "m1" self).2.(requests) = self.(requests).
Proof.
  intros self E E'. split.
  - apply (proj1 eval_module_counts_request E self "m1"
             {| h_address := VStr "addr1"; h_info := Return m1_info |}).
    concrete.
  - apply (proj2 eval_module_counts_request E' self "m1" ConnectionError).
    concrete.
Defined.

Lemma eval_module_first_failure_raises_witness :
  let self := scenario_vali (scenario_config (Qc_frac 1 5) (Qc_of_Z 60) 2) ∅ in
  let E := scenario_env (Qc_of_Z 1000) (reachable m1_info) failing_score_module in
  ∃ self',
    eval_module E "m1" self = (Raise (KeyError "w"), self') ∧
    self'.(json_files) = self.(json_files).
Proof.
  intros self E.
  eapply (eval_module_first_failure_raises E self "m1"); concrete.
Defined.


Lemma eval_module_within_max_age_witness :
  let cold := scenario_vali (scenario_config (Qc_frac 1 5) (Qc_of_Z 60) 2) ∅ in
  let warm := scenario_vali (scenario_config (Qc_frac 1 5) (Qc_of_Z 60) 2)
                (m1_cached 1 (Qc_of_Z 990)) in
  let E := scenario_env (Qc_of_Z 1000) (reachable m1_info) default_score_module in
  (∃ r self',
     eval_module E "m1" warm = (Return r, self') ∧
     r !! "w" = Some (dict_get (get_module_info warm "m1") "w" (VNum 0)) ∧
     self'.(calls) = warm.(calls) ++ [Connect (resolve_module warm "m1").2] ∧
     self'.(json_files) = warm.(json_files)) ∧
  (let first := eval_module E "m1" warm in
   ∃ r1 r2 self2,
     first.1 = Return r1 ∧
     eval_module E "m1" first.2 = (Return r2, self2) ∧
     r2 !! "w" = r1 !! "w" ∧
     self2.(calls) = first.2.(calls) ++ [Connect (resolve_module warm "m1").2] ∧
     self2.(json_files) = first.2.(json_files)) ∧
  (let first := eval_module E "m1" cold in
   ∃ r1,
     first.1 = Return r1 ∧
     ∃ r2 self2,
       eval_module E "m1" first.2 = (Return r2, self2) ∧
       r2 !! "w" = r1 !! "w" ∧
       self2.(calls) = first.2.(calls) ++ [Connect (resolve_module cold "m1").2] ∧
       self2.(json_files) = first.2.(json_files)).
Proof.
  intros cold warm E. split; [|split].
  - eapply (proj1 eval_module_within_max_age E warm "m1"); concrete.
  - eapply (proj1 (proj2 eval_module_within_max_age) E E warm "m1"); concrete.
  - intros first. eexists. split; [concrete|].
    eapply (proj2 (proj2 eval_module_within_max_age) E E cold "m1"); concrete.
Defined.


(** ** The claims about [epoch] *)

Lemma keeps_self_subspace : keeps self_subspace.
Proof. unfold self_subspace. repeat keeps_step. Qed.

Lemma keeps_vote_staleness E : keeps (vote_staleness E).
Proof. unfold vote_staleness. repeat first [apply keeps_self_subspace | keeps_step]. Qed.

Lemma keeps_count_result E result : keeps (count_result E result).
Proof. unfold count_result. repeat keeps_step. Qed.

Lemma keeps_print_stats E stats_path st : keeps (print_stats E stats_path st).
Proof. unfold print_stats. repeat first [apply keeps_vote_staleness | keeps_step]. Qed.

Lemma bind_Return {A B} (m : M A) (k : A → M B) self b self'' :
  bind m k self = (Return b, self'') →
  ∃ a self', m self = (Return a, self') ∧ k a self' = (Return b, self'').
Proof.
  unfold bind. destruct (m self) as [[a|e] self']; [|done]. by eauto.
Qed.

Lemma keeps_config {A} (m : M A) self :
  keeps m → (m self).2.(config) = self.(config).
Proof. intros Hm. specialize (Hm self). unfold frame in Hm. by injection Hm. Qed.

Lemma epoch_iteration_bounded E stats_path st module_address self st' self' :
  (0 ≤ self.(config).(cfg_batch_size))%Z →
  bounded self.(config).(cfg_batch_size) st →
  epoch_iteration E stats_path st module_address self = (Return st', self') →
  bounded self.(config).(cfg_batch_size) st'.
Proof.
  intros Hk Hst Hit. unfold epoch_iteration in Hit.
  apply bind_Return in Hit as (k & self1 & Hk1 & Hit).
  unfold gets in Hk1. simplify_eq.
  case_bool_decide as Hlt.
  - repeat (apply bind_Return in Hit as (? & ? & _ & Hit)).
    unfold ret in Hit. simplify_eq. unfold bounded. cbn.
    rewrite length_app. cbn. lia.
  - destruct (futures st) as [|f fs] eqn:Hfs.
    + repeat (apply bind_Return in Hit as (? & ? & _ & Hit)).
      unfold ret in Hit. by simplify_eq.
    + destruct (as_completed E (waits st) (f :: fs)) as [position result|e].
      * repeat (apply bind_Return in Hit as (? & ? & _ & Hit)).
        unfold ret in Hit. simplify_eq. unfold bounded in *. cbn.
        rewrite Hfs in Hst. cbn in Hst.
        assert (position `mod` S (length fs) < S (length fs))%nat as Hpos
          by (apply Nat.mod_upper_bound; lia).
        rewrite (length_delete (f :: fs)) by (by apply lookup_lt_is_Some).
        cbn. lia.
      * repeat (apply bind_Return in Hit as (? & ? & _ & Hit)).
        unfold ret in Hit. simplify_eq. unfold bounded in *. cbn. by rewrite Hfs in Hst.
Qed.

Lemma epoch_loop_bounded E stats_path module_addresses : ∀ st self st' self',
  (0 ≤ self.(config).(cfg_batch_size))%Z →
  bounded self.(config).(cfg_batch_size) st →
  epoch_loop E stats_path module_addresses st self = (Return st', self') →
  bounded self.(config).(cfg_batch_size) st'.
Proof.
  induction module_addresses as [|a l IH]; intros st self st' self' Hk Hst Hloop.
  - unfold epoch_loop, ret in Hloop. by simplify_eq.
  - cbn [epoch_loop] in Hloop.
    apply bind_Return in Hloop as (st1 & self1 & Hit & Hloop).
    assert (self1.(config) = self.(config)) as Hcfg.
    { pose proof (keeps_config (epoch_iteration E stats_path st a) self) as H.
      rewrite Hit in H. apply H. unfold epoch_iteration.
      repeat first [apply keeps_print_stats | apply keeps_count_result | keeps_step]. }
    rewrite <- Hcfg. apply (IH st1 self1 st' self'); [by rewrite Hcfg| |done].
    rewrite Hcfg. by eapply epoch_iteration_bounded.
Qed.

Lemma epoch_loop_app E stats_path l1 l2 st self :
  epoch_loop E stats_path (l1 ++ l2) st self
  = bind (epoch_loop E stats_path l1 st) (epoch_loop E stats_path l2) self.
Proof.
  revert st self. induction l1 as [|a l1 IH]; intros st self; [reflexivity|].
  cbn [app epoch_loop]. unfold bind.
  destruct (epoch_iteration E stats_path st a self) as [[st1|e] self1]; [|done].
  rewrite IH. reflexivity.
Qed.

(** C8.  With a batch size that is not negative, the futures in flight never
    exceed it: after the loop of [epoch] has gone through any number of
    module addresses, [len(futures) <= batch_size]. *)
Theorem epoch_in_flight_bounded E stats_path visited self st self' :
  (0 ≤ self.(config).(cfg_batch_size))%Z →
  epoch_loop E stats_path visited epoch_start self = (Return st, self') →
  (Z.of_nat (length st.(futures)) ≤ self.(config).(cfg_batch_size))%Z.
Proof.
  intros Hk Hloop.
  apply (epoch_loop_bounded E stats_path visited epoch_start self st self' Hk);
    [|done].
  unfold bounded, epoch_start. cbn. lia.
Qed.

Lemma epoch_in_flight_bounded_witness :
  let self := scenario_vali (scenario_config (Qc_frac 1 5) (Qc_of_Z 60) 1) ∅ in
  let E := scenario_env (Qc_of_Z 1000) (reachable m1_info) default_score_module in
  ∃ st self',
    epoch_loop E "worker_stats" ["addr1"; "addr2"; "addr3"] epoch_start self
    = (Return st, self') ∧
    (Z.of_nat (length st.(futures)) ≤ 1)%Z.
Proof.
  intros self E. eexists _, _. split; [concrete|].
  eapply (epoch_in_flight_bounded E "worker_stats" ["addr1"; "addr2"; "addr3"] self);
    concrete.
Defined.

(** C4 (found false on the code).  An epoch is meant to submit every module
    of the namespace.  With two modules and [batch_size = 1] the epoch submits
    only the first: the iteration that finds the pool full drains one result
    and then moves on to the next address without submitting its own. *)
Theorem epoch_skips_module_at_capacity :
  let self := scenario_vali (scenario_config (Qc_frac 1 5) (Qc_of_Z 60) 1) ∅ in
  let E := scenario_env (Qc_of_Z 1000) (reachable m1_info) default_score_module in
  E.(c_shuffle) (map_to_list self.(namespace)).*2 = ["addr1"; "addr2"] ∧
  (∃ results, (epoch E "worker_stats" self).1 = Return results ∧ length results = 1%nat) ∧
  submitted (epoch E "worker_stats" self).2 = ["addr1"].
Proof.
  intros self E. split; [concrete|]. split; [|concrete].
  eexists. split; concrete.
Qed.

(** ** The claims about [vote] and [votes] *)

Lemma vote_staleness_state E self : (vote_staleness E self).2 = self.
Proof.
  unfold vote_staleness, self_subspace, bind, gets, lift, ret, raise.
  by repeat (case_match; simplify_eq/=).
Qed.

(** C5, as amended.  The rate limit of [vote] is not measured on the clock
    against [last_vote_time] but is the property [vote_staleness]: on a
    subspace network the chain's block height minus the block at which the
    validator last updated its weights, and 0 on any other network.  Whenever
    that staleness is below [vote_interval], [vote] returns the non-error
    result ['Vote is too new'] with [success] false, and the validator is left
    exactly as it was: nothing is submitted and [last_vote_time] is unchanged. *)
Theorem vote_too_new E async_vote save self staleness s :
  (vote_staleness E self).1 = Return staleness →
  as_num staleness = Some s →
  (s < self.(config).(cfg_vote_interval))%Qc →
  ∃ r,
    vote E async_vote save self = (Return (ODict r), self) ∧
    r !! "success" = Some (VBool false) ∧
    r !! "msg" = Some (VStr "Vote is too new").
Proof.
  intros Hst Hs Hlt.
  pose proof (vote_staleness_state E self) as Hself.
  destruct (vote_staleness E self) as [o self0] eqn:Hvs. cbn in Hst, Hself.
  subst o self0.
  unfold vote. unfold bind at 1. rewrite Hvs.
  unfold bind at 1. unfold gets at 1. unfold bind at 1.
  unfold lift at 1, py_lt, py_compare. rewrite Hs. cbn.
  unfold Qc_ltb. rewrite bool_decide_eq_true_2 by done.
  unfold bind at 1. rewrite Hvs. unfold ret.
  eexists. split; [reflexivity|]. by lookup_simpl.
Qed.

Lemma vote_too_new_witness :
  let self := voting_vali (Qc_of_Z 100) (Qc_of_Z 1000) in
  let E := voting_env (Qc_of_Z 1001) 500 450 [] in
  ∃ r,
    vote E false true self = (Return (ODict r), self) ∧
    r !! "success" = Some (VBool false) ∧
    r !! "msg" = Some (VStr "Vote is too new").
Proof.
  intros self E.
  eapply (vote_too_new E false true self); concrete.
Defined.

(** A validator that voted one second ago, with [vote_interval = 100]: the
    chain says its weights are 400 blocks old, and [vote] votes again. *)
Lemma vote_within_interval_is_cast :
  let self := voting_vali (Qc_of_Z 100) (Qc_of_Z 1000) in
  let E := voting_env (Qc_of_Z 1001) 500 100
             [cached_record "A" "keyA" (Qc_of_Z 5) (Qc_of_Z 900)] in
  let run := vote E false true self in
  (E.(clock) self.(ticks) - self.(last_vote_time)
     < self.(config).(cfg_vote_interval))%Qc ∧
  (∃ r, run.1 = Return (ODict r) ∧ r !! "success" = Some (VBool true)) ∧
  run.2.(calls) !! 1%nat = Some (ChainVote [7%Z] [VNum (Qc_of_Z 5)]) ∧
  run.2.(last_vote_time) ≠ self.(last_vote_time).
Proof.
  intros self E run. split; [concrete|]. split; [eexists; split; concrete|].
  split; [concrete|].
  intros H. apply Qc_eq_Qeq in H. vm_compute in H. discriminate H.
Qed.

Lemma well_formed_record_spec s :
  well_formed_record s →
  is_Some (as_num (dict_get s "timestamp" (VNum 0))) ∧
  is_Some (as_num (dict_get s "w" VNone)) ∧
  (∀ r, s !! "ss58_address" ≠ Some (VObj r)).
Proof.
  unfold well_formed_record. intros H.
  apply andb_True in H as [H Hid]. apply andb_True in H as [Hts Hw].
  apply bool_decide_unpack in Hts, Hw. repeat split; try done.
  intros r Hr. by rewrite Hr in Hid.
Qed.

Lemma project_staleness keys (s : dict) v :
  "staleness" ∉ keys →
  list_to_map ((λ k, (k, dict_get (<["staleness" := v]> s) k VNone)) <$> keys)
  = project keys s.
Proof.
  intros Hk. unfold project. f_equal. apply list_fmap_ext.
  intros i k Hik. f_equal. unfold dict_get. rewrite lookup_insert_ne; [done|].
  intros <-. apply Hk. by eapply list_elem_of_lookup_2.
Qed.

Lemma identified_cons (s : dict) listing :
  identified (JDict s :: listing)
  = if in_dict "ss58_address" s then s :: identified listing else identified listing.
Proof. unfold identified. cbn. by destruct (in_dict _ s). Qed.

Lemma module_infos_loop_spec E keys max_age listing : ∀ acc self,
  "staleness" ∉ keys →
  Forall well_formed_record (identified listing) →
  ∃ self',
    module_infos_loop E keys max_age listing acc self
    = (Return (acc ++ (project keys <$> fresh_records E max_age self.(ticks) listing)),
       self') ∧
    self'.(ticks) = (self.(ticks) + length (identified listing))%nat ∧
    self'.(has_subspace) = self.(has_subspace) ∧
    self'.(calls) = self.(calls) ∧
    self'.(last_vote_time) = self.(last_vote_time).
Proof.
  induction listing as [|[s|] listing IH]; intros acc self Hk Hwf.
  - exists self. cbn. rewrite app_nil_r. by rewrite Nat.add_0_r.
  - cbn [module_infos_loop fresh_records]. rewrite identified_cons in *.
    destruct (in_dict "ss58_address" s) eqn:Hid; [|by apply IH].
    apply Forall_cons in Hwf as [Hs Hwf].
    apply well_formed_record_spec in Hs as ((ts & Hts) & _ & _).
    unfold bind at 1, c_time at 1. unfold bind at 1, lift at 1.
    unfold py_sub, py_arith. cbn [as_num]. rewrite Hts. cbn [default].
    unfold bind at 1, lift at 1, py_gt, py_compare. cbn [as_num flip].
    rewrite (project_staleness _ _ _ Hk).
    destruct (Qc_ltb max_age _).
    + destruct (IH acc (set_ticks (S (ticks self)) self) Hk Hwf)
        as (self' & -> & Ht & ? & ? & ?).
      exists self'. split; [done|]. cbn in *. split; [lia|done].
    + destruct (IH (acc ++ [project keys s]) (set_ticks (S (ticks self)) self) Hk Hwf)
        as (self' & -> & Ht & ? & ? & ?).
      exists self'. rewrite <- app_assoc. split; [done|]. cbn in *. split; [lia|done].
  - cbn. by apply IH.
Qed.

Lemma insert_desc_last {A} (key : A → value) x l :
  key x = VNum 0 → Forall (λ y, key y = VNum 0) l →
  insert_desc key x l = Return (l ++ [x]).
Proof.
  intros Hx. induction 1 as [|y l Hy _ IH]; [done|].
  cbn. rewrite Hy, Hx. cbn. by rewrite IH.
Qed.

Lemma py_sorted_desc_equal_keys {A} (key : A → value) l :
  Forall (λ y, key y = VNum 0) l → py_sorted_desc key l = Return l.
Proof.
  unfold py_sorted_desc. intros Hl.
  enough (∀ acc, Forall (λ y, key y = VNum 0) acc →
    foldl (λ acc x, match acc with Raise e => Raise e
                    | Return sorted => insert_desc key x sorted end)
      (Return acc) l = Return (acc ++ l)) as H by (by apply (H [])).
  induction Hl as [|x l Hx Hl IH]; intros acc Hacc; [by rewrite app_nil_r|].
  cbn. rewrite insert_desc_last by done. rewrite IH.
  - by rewrite <- app_assoc.
  - apply Forall_app; split; [done|]. by constructor.
Qed.

Lemma project_w s : project vote_keys s !! "w" = Some (dict_get s "w" VNone).
Proof. unfold project. cbn. by lookup_simpl. Qed.

Lemma project_identity s :
  project vote_keys s !! "ss58_address" = Some (dict_get s "ss58_address" VNone).
Proof. unfold project. cbn. by lookup_simpl. Qed.

Lemma project_no_staleness s : in_dict "staleness" (project vote_keys s) = false.
Proof.
  unfold in_dict, project. cbn. rewrite bool_decide_eq_false_2; [done|].
  lookup_simpl. rewrite lookup_empty. by intros [? ?].
Qed.

Lemma fresh_records_Forall (P : dict → Prop) E max_age listing : ∀ tick,
  Forall P (identified listing) → Forall P (fresh_records E max_age tick listing).
Proof.
  induction listing as [|[s|] listing IH]; intros tick Hl; [done| |by apply IH].
  cbn [fresh_records]. rewrite identified_cons in Hl.
  destruct (in_dict "ss58_address" s); [|by apply IH].
  apply Forall_cons in Hl as [Hs Hl]. destruct (Qc_ltb _ _); [by apply IH|].
  constructor; [done|by apply IH].
Qed.

Lemma votes_loop_spec key2uid l : ∀ votes,
  Forall well_formed_record l →
  votes_loop key2uid (project vote_keys <$> l) votes
  = Return (add_votes votes (omap (vote_of key2uid) l)).
Proof.
  induction l as [|s l IH]; intros votes Hl.
  - cbn. unfold add_votes. cbn. rewrite !app_nil_r. by destruct votes.
  - apply Forall_cons in Hl as [Hs Hl].
    apply well_formed_record_spec in Hs as (_ & (q & Hq) & Hobj).
    cbn [fmap list_fmap votes_loop].
    change (omap (vote_of key2uid) (s :: l))
      with (match vote_of key2uid s with
            | Some y => y :: omap (vote_of key2uid) l
            | None => omap (vote_of key2uid) l
            end).
    rewrite (in_dict_true _ _ _ (project_identity s)).
    rewrite (dict_item_Some _ _ _ (project_w s)),
      (dict_item_Some _ _ _ (project_identity s)).
    unfold vote_of at 1. unfold py_ge, py_compare. rewrite Hq. cbn [as_num flip].
    destruct (Qc_leb 0 q); [|by apply IH].
    destruct (dict_get s "ss58_address" VNone) as [| | |k|r] eqn:Hkey;
      cbn [key2uid_find]; try by apply IH.
    + destruct (key2uid !! k) as [uid|]; cbn [fmap option_fmap option_map];
        [|by apply IH].
      rewrite IH by done. unfold add_votes. cbn. by rewrite <- !app_assoc.
    + exfalso. apply (Hobj r). unfold dict_get in Hkey.
      destruct (s !! "ss58_address"); by simplify_eq/=.
Qed.



(** The scenario of the specification: of the records [A] (identity set,
    score 5) and [B] (identity empty, score 9), only [A] is voted for. *)
Lemma votes_scenario :
  let self := voting_vali (Qc_of_Z 100) (Qc_of_Z 1000) in
  let E := voting_env (Qc_of_Z 1001) 500 100
             [cached_record "A" "keyA" (Qc_of_Z 5) (Qc_of_Z 900);
              cached_record "B" "" (Qc_of_Z 9) (Qc_of_Z 950)] in
  ∃ votes_built,
    (votes E self).1 = Return votes_built ∧
    votes_built.(vs_keys) = [VStr "keyA"] ∧ votes_built.(vs_uids) = [7%Z].
Proof. intros self E. eexists. split; [|split]; concrete. Qed.


(** * Further properties of the code *)

(** ** [get_module_info], [check_response] and [eval_module] *)

(** ** Further properties of the evaluator *)

(** X1.  [epoch] hands addresses to [eval_module], while the cache is keyed by
    names.  For a module registered under [name] at [address], with
    [address2name] the inverse entry and [address] not itself a registered
    name, evaluating by address is evaluating by name. *)
Theorem eval_module_by_address E self name address :
  self.(namespace) !! name = Some address →
  self.(address2name) !! address = Some name →
  self.(namespace) !! address = None →
  get_module_info self address = get_module_info self name ∧
  eval_module E address self = eval_module E name self.
Proof.
  intros Hname Haddress Hfree.
  assert (get_module_info self address = get_module_info self name) as Hinfo.
  { unfold get_module_info, resolve_module. by rewrite Hname, Hfree, Haddress. }
  split; [done|].
  unfold eval_module. unfold bind at 1. unfold bind at 2.
  unfold gets. by rewrite Hinfo.
Qed.

Lemma eval_module_by_address_witness :
  let self := scenario_vali (scenario_config (Qc_frac 1 5) (Qc_of_Z 60) 2)
                (m1_cached 1 (Qc_of_Z 990)) in
  let E := scenario_env (Qc_of_Z 1000) (reachable m1_info) default_score_module in
  get_module_info self "addr1" = get_module_info self "m1" ∧
  eval_module E "addr1" self = eval_module E "m1" self.
Proof.
  intros self E. apply (eval_module_by_address E self "m1" "addr1"); concrete.
Defined.

(** X2.  What [check_response] returns always has a [w] entry and is left as
    it is by a second check; it raises nothing but [AssertionError], and does
    so exactly on a dict without [w] and on what is neither a number, a bool
    nor a dict. *)
Theorem check_response_spec response :
  match check_response response with
  | Return d => is_Some (d !! "w") ∧ check_response (ODict d) = Return d
  | Raise e =>
      (∃ msg, e = AssertionError msg) ∧
      (response = OOther ∨ ∃ d, response = ODict d ∧ d !! "w" = None)
  end.
Proof.
  destruct response as [q|b|d|]; cbn.
  - split; [by eexists|]. unfold in_dict. by rewrite bool_decide_eq_true_2 by by eexists.
  - split; [by eexists|]. unfold in_dict. by rewrite bool_decide_eq_true_2 by by eexists.
  - unfold in_dict. case_bool_decide as Hw.
    + split; [done|]. cbn. unfold in_dict. by rewrite bool_decide_eq_true_2.
    + split; [by eexists|]. right. exists d. split; [done|].
      by apply eq_None_not_Some.
  - split; [by eexists|]. by left.
Qed.

(** X3.  [check_response] does not look at what [w] is.  With [alpha]
    strictly between 0 and 1, a response whose [w] is not a number passes it,
    is merged into the record, and makes the blend raise [TypeError], outside
    the [try]: [eval_module] raises and persists nothing. *)
Theorem eval_module_weight_not_a_number
    E self module h s module_info response v ts :
  E.(c_connect) (resolve_module self module).2 = Return h →
  staleness E self module = Some s →
  ¬ (s < self.(config).(cfg_max_age))%Qc →
  h.(h_info) = Return module_info →
  scoring E h = Return response →
  response !! "w" = Some v →
  as_num v = None →
  as_num (dict_get response "timestamp" (VNum (E.(clock) (S self.(ticks))))) = Some ts →
  (0 < self.(config).(cfg_alpha))%Qc →
  (self.(config).(cfg_alpha) < 1)%Qc →
  ∃ self',
    eval_module E module self = (Raise TypeError, self') ∧
    self'.(json_files) = self.(json_files).
Proof.
  intros Hc Hs Hstale Hinfo Hscore Hw Hv Htime _ _. unfold staleness in Hs.
  destruct (as_num _) as [t0|] eqn:Hts; [|done]. simplify_eq.
  destruct (eval_module E module self) as [o self'] eqn:Heval. exists self'.
  enter_eval_module Heval Hc Hts. enter_stale Heval Hstale Hinfo.
  unfold scoring in Hscore.
  destruct (score_module E h) as [resp|]; [|done]. rewrite Hscore in Heval.
  cbn in Heval.
  rewrite (dict_item_Some _ _ _
             (dict_update_lookup _ response _ _ (merged_info_timestamp _ _ _ _)))
    in Heval.
  cbn in Heval. rewrite Htime in Heval. cbn in Heval.
  rewrite (dict_item_Some _ _ _ Hw) in Heval. cbn in Heval.
  rewrite Hv in Heval. cbn in Heval. by simplify_eq.
Qed.

Lemma eval_module_weight_not_a_number_witness :
  let self := scenario_vali (scenario_config (Qc_frac 1 5) (Qc_of_Z 60) 2)
                (m1_cached 1 (Qc_of_Z 100)) in
  let E := scenario_env (Qc_of_Z 1000) (reachable m1_info)
             (λ _, Return (ODict {[ "w" := VStr "high" ]})) in
  ∃ self',
    eval_module E "m1" self = (Raise TypeError, self') ∧
    self'.(json_files) = self.(json_files).
Proof.
  intros self E.
  eapply (eval_module_weight_not_a_number E self "m1"); concrete.
Defined.

(** X4.  When [c.connect] raises, [eval_module] raises the same exception
    before anything else happens: no request is counted, the clock is not
    read, the cache is not written, and the connect is the only call made. *)
Theorem eval_module_unreachable E self module e :
  E.(c_connect) (resolve_module self module).2 = Raise e →
  ∃ self',
    eval_module E module self = (Raise e, self') ∧
    self'.(requests) = self.(requests) ∧
    self'.(ticks) = self.(ticks) ∧
    self'.(json_files) = self.(json_files) ∧
    self'.(calls) = self.(calls) ++ [Connect (resolve_module self module).2].
Proof.
  intros Hc. rewrite (eval_module_connect_raises E self module e Hc).
  by eexists.
Qed.

Lemma eval_module_unreachable_witness :
  let self := scenario_vali (scenario_config (Qc_frac 1 5) (Qc_of_Z 60) 2) ∅ in
  let E := scenario_env (Qc_of_Z 1000) (unreachable ConnectionError)
             default_score_module in
  ∃ self',
    eval_module E "m1" self = (Raise ConnectionError, self') ∧
    self'.(requests) = self.(requests) ∧
    self'.(ticks) = self.(ticks) ∧
    self'.(json_files) = self.(json_files) ∧
    self'.(calls) = self.(calls) ++ [Connect (VStr "addr1")].
Proof.
  intros self E. apply (eval_module_unreachable E self "m1" ConnectionError).
  concrete.
Defined.

(** X5.  When [module.info] raises on a stale record, [eval_module] raises
    the same exception: the request has been counted, the scoring function is
    not called, and nothing is persisted. *)
Theorem eval_module_info_fails E self module h s e :
  E.(c_connect) (resolve_module self module).2 = Return h →
  staleness E self module = Some s →
  ¬ (s < self.(config).(cfg_max_age))%Qc →
  h.(h_info) = Raise e →
  ∃ self',
    eval_module E module self = (Raise e, self') ∧
    self'.(requests) = (self.(requests) + 1)%Z ∧
    self'.(json_files) = self.(json_files) ∧
    self'.(calls) = self.(calls) ++ [Connect (resolve_module self module).2;
                                     ModuleInfo h.(h_address)].
Proof.
  intros Hc Hs Hstale Hinfo. unfold staleness in Hs.
  destruct (as_num _) as [ts|] eqn:Hts; [|done]. simplify_eq.
  destruct (eval_module E module self) as [o self'] eqn:Heval.
  enter_eval_module Heval Hc Hts.
  rewrite bool_decide_eq_false_2 in Heval by done. rewrite Hinfo in Heval.
  cbn in Heval. simplify_eq. eexists. split; [done|]. cbn.
  by rewrite <- app_assoc.
Qed.

Lemma eval_module_info_fails_witness :
  let self := scenario_vali (scenario_config (Qc_frac 1 5) (Qc_of_Z 60) 2)
                (m1_cached 1 (Qc_of_Z 100)) in
  let E := scenario_env (Qc_of_Z 1000) (mute TimeoutError) default_score_module in
  ∃ self',
    eval_module E "m1" self = (Raise TimeoutError, self') ∧
    self'.(requests) = (self.(requests) + 1)%Z ∧
    self'.(json_files) = self.(json_files) ∧
    self'.(calls) = self.(calls) ++ [Connect (VStr "addr1"); ModuleInfo (VStr "addr1")].
Proof.
  intros self E.
  eapply (eval_module_info_fails E self "m1"
            {| h_address := VStr "addr1"; h_info := Raise TimeoutError |});
    concrete.
Defined.

Lemma get_module_info_with_cached_score self module v k :
  k ≠ "w" →
  get_module_info (with_cached_score self module v) module !! k
  = get_module_info self module !! k.
Proof.
  intros Hk. unfold get_module_info.
  assert (resolve_module (with_cached_score self module v) module
          = resolve_module self module) as -> by done.
  assert (load_module_info (with_cached_score self module v)
            (resolve_module self module).1 (Some ∅)
          = <["w" := v]> (load_module_info self (resolve_module self module).1 (Some ∅)))
    as ->.
  { unfold load_module_info at 1, get_json, with_cached_score, record_path. cbn.
    unfold storage_path. cbn. by rewrite lookup_insert_eq. }
  unfold dict_get.
  destruct (decide (k = "schema")) as [->|?].
  { rewrite !lookup_insert_eq. by rewrite !lookup_insert_ne by done. }
  rewrite !(lookup_insert_ne _ "schema") by done.
  destruct (decide (k = "name")) as [->|?]; [by rewrite !lookup_insert_eq|].
  rewrite !(lookup_insert_ne _ "name") by done.
  destruct (decide (k = "address")) as [->|?]; [by rewrite !lookup_insert_eq|].
  rewrite !(lookup_insert_ne _ "address") by done.
  by rewrite lookup_insert_ne.
Qed.



Lemma dict_item_Raise (d : dict) k e : dict_item d k = Raise e → d !! k = None.
Proof. unfold dict_item. by destruct (d !! k). Qed.

Lemma is_Some_dict_update (d r : dict) k :
  is_Some (d !! k) → is_Some (dict_update d r !! k).
Proof.
  intros [v Hv]. unfold dict_update. rewrite lookup_union, Hv.
  destruct (r !! k); by eexists.
Qed.

Lemma is_Some_dict_insert (d : dict) k k' v :
  is_Some (d !! k') → is_Some (<[k:=v]> d !! k').
Proof.
  intros Hd. destruct (decide (k = k')) as [->|?].
  - rewrite lookup_insert_eq. by eexists.
  - by rewrite lookup_insert_ne.
Qed.

Lemma is_Some_get_module_info_address self module :
  is_Some (get_module_info self module !! "address").
Proof. rewrite get_module_info_address. by eexists. Qed.

Lemma is_Some_get_module_info_name self module :
  is_Some (get_module_info self module !! "name").
Proof. rewrite get_module_info_name. by eexists. Qed.

Create HintDb dict_keys.
#[local] Hint Resolve is_Some_dict_update is_Some_dict_insert
  is_Some_get_module_info_address is_Some_get_module_info_name : dict_keys.

(** X7.  One call of [eval_module] changes at most one file of the cache, and
    none at all when it raises. *)
Theorem eval_module_writes_one_record E module self :
  (∃ path, ∀ other,
     other ≠ path →
     (eval_module E module self).2.(json_files) !! other = self.(json_files) !! other) ∧
  (∀ e, (eval_module E module self).1 = Raise e →
        (eval_module E module self).2.(json_files) = self.(json_files)).
Proof.
  assert (∀ e self', eval_module E module self = (Raise e, self') →
                     self'.(json_files) = self.(json_files)) as Hraise.
  { intros e self' Heval. unfold eval_module in Heval. unfold_monad Heval.
    unfold dict_item at 1 in Heval. rewrite get_module_info_address in Heval.
    cbn in Heval.
    repeat (case_match; unfold ret, raise in *; simplify_eq/=); try done.
    all: repeat match goal with
         | H : dict_item (<[_:=_]> _) _ = _ |- _ =>
             first [ rewrite dict_item_insert_eq in H
                   | rewrite dict_item_insert_ne in H by done ]
         end; simplify_eq.
    all: match goal with
         | H : dict_item _ _ = Raise _ |- _ =>
             apply dict_item_Raise, eq_None_not_Some in H; destruct H;
             eauto 10 with dict_keys
         end. }
  destruct (eval_module E module self) as [[r|e] self'] eqn:Heval; cbn.
  - split; [|done].
    destruct (eval_module_returns_inv _ _ _ _ _ Heval)
      as [[_ Hsame]|(name & final & w & _ & _ & _ & Hput)].
    + exists "". intros other _. by rewrite Hsame.
    + exists (record_path self name). intros other Hother.
      rewrite Hput. by rewrite lookup_insert_ne.
  - split; [|intros ? _; by eapply Hraise].
    exists "". intros other _. by rewrite (Hraise e self').
Qed.

(** ** [vote] past its guards *)

(** ** Further properties of the vote pipeline *)

Lemma keeps_module_infos_loop E keys max_age listing : ∀ acc,
  keeps (module_infos_loop E keys max_age listing acc).
Proof.
  induction listing as [|[s|] listing IH]; intros acc; cbn [module_infos_loop];
    [apply keeps_ret| |apply IH].
  repeat first [apply IH | keeps_step].
Qed.

(** What a run of [votes] does, on a validator with a chain client and a
    cache of well-formed records. *)
Lemma votes_returns E self :
  self.(has_subspace) = true →
  forallb well_formed_record (identified E.(cache_listing)) = true →
  ∃ self' timestamp infos,
    votes E self
    = (Return (add_votes {| vs_keys := []; vs_weights := []; vs_uids := [];
                            vs_timestamp := timestamp |}
                 (eligible_votes E self)), self') ∧
    self'.(calls) = self.(calls) ++ [Put "cache/module_infos" (PInfos infos)] ∧
    self'.(last_vote_time) = self.(last_vote_time) ∧
    self'.(config) = self.(config) ∧
    self'.(network) = self.(network) ∧ self'.(netuid) = self.(netuid) ∧
    self'.(ticks) = S (self.(ticks) + length (identified E.(cache_listing))).
Proof.
  intros Hsub Hwf. apply Is_true_true, forallb_True in Hwf.
  unfold votes, module_infos, eligible_votes.
  pose proof (keeps_module_infos_loop E vote_keys (Qc_of_Z 1000) E.(cache_listing)
                [] self) as Hframe.
  destruct (module_infos_loop_spec E vote_keys (Qc_of_Z 1000) E.(cache_listing)
              [] self) as (self1 & Hloop & Hticks & Hsub1 & Hcalls & Hlast);
    [by apply (bool_decide_unpack _)|done|].
  rewrite Hloop in Hframe. cbn in Hframe.
  fold vote_keys. unfold bind at 1. unfold bind at 1. unfold bind at 1.
  rewrite Hloop. cbn [app].
  set (records := fresh_records E (Qc_of_Z 1000) (ticks self) (cache_listing E)).
  assert (Forall well_formed_record records) as Hrecords
    by (by apply fresh_records_Forall).
  assert ((if bool_decide (0 < length (project vote_keys <$> records))%nat
           then lift (py_sorted_desc
                  (λ x : dict, if in_dict "staleness" x
                               then dict_get x "staleness" VNone else VNum 0)
                  (project vote_keys <$> records))
           else ret (project vote_keys <$> records)) self1
          = (Return (project vote_keys <$> records), self1)) as ->.
  { case_bool_decide; [|done]. unfold lift.
    rewrite py_sorted_desc_equal_keys; [done|].
    apply Forall_fmap, Forall_true. intros s. unfold compose.
    by rewrite project_no_staleness. }
  unfold bind at 1, record_call at 1, modify at 1. unfold ret at 1.
  unfold bind at 1, c_time at 1. unfold bind at 1.
  unfold self_subspace at 1, bind at 1, gets at 1. cbn [has_subspace set_calls set_ticks].
  rewrite Hsub1, Hsub. unfold ret at 1.
  unfold bind at 1, lift at 1. rewrite votes_loop_spec by done.
  unfold bind at 1. unfold py_assert.
  rewrite bool_decide_eq_true_2.
  2:{ cbn. by rewrite !length_fmap. }
  unfold ret. eexists _, _, _. split; [reflexivity|]. cbn.
  unfold frame in Hframe. injection Hframe as ? ? ? ? ? ?.
  rewrite Hcalls, Hticks. repeat split; try done.
Qed.

Lemma vote_staleness_returns E self v :
  (vote_staleness E self).1 = Return v → vote_staleness E self = (Return v, self).
Proof.
  intros Hv. pose proof (vote_staleness_state E self) as Hself.
  destruct (vote_staleness E self) as [o self0]. cbn in *. by subst.
Qed.

(** X8.  On a network whose name contains neither [subspace] nor [bittensor],
    [vote] never gets as far as the cache or the chain: it returns a result
    with [success] false, "Vote is too new" or "Not a voting network", and
    leaves the validator exactly as it was. *)
Theorem vote_not_a_voting_network E async_vote save self :
  contains "subspace" self.(config).(cfg_network) = false →
  contains "bittensor" self.(config).(cfg_network) = false →
  ∃ r msg,
    vote E async_vote save self = (Return (ODict r), self) ∧
    r !! "success" = Some (VBool false) ∧
    r !! "msg" = Some (VStr msg) ∧
    (msg = "Vote is too new" ∨ msg = "Not a voting network").
Proof.
  intros Hsub Hbit.
  assert (vote_staleness E self = (Return (VNum 0), self)) as Hvs.
  { unfold vote_staleness, bind, gets. by rewrite Hsub. }
  unfold vote. unfold bind at 1. rewrite Hvs.
  unfold bind at 1. unfold gets at 1. unfold bind at 1.
  unfold lift at 1, py_lt, py_compare. cbn [as_num].
  destruct (Qc_ltb 0 (cfg_vote_interval (config self))).
  - unfold bind at 1. rewrite Hvs. unfold ret.
    eexists _, _. split; [reflexivity|]. lookup_simpl. repeat split; try done. by left.
  - unfold bind at 1, gets at 1. rewrite Hsub, Hbit. cbn. unfold ret.
    eexists _, _. split; [reflexivity|]. lookup_simpl. repeat split; try done. by right.
Qed.

Lemma vote_not_a_voting_network_witness :
  let self := scenario_vali (scenario_config (Qc_frac 1 5) (Qc_of_Z 60) 2) ∅ in
  let E := scenario_env (Qc_of_Z 1000) (reachable m1_info) default_score_module in
  ∃ r msg,
    vote E false true self = (Return (ODict r), self) ∧
    r !! "success" = Some (VBool false) ∧
    r !! "msg" = Some (VStr msg) ∧
    (msg = "Vote is too new" ∨ msg = "Not a voting network").
Proof.
  intros self E. apply (vote_not_a_voting_network E false true self); concrete.
Defined.

(** Runs [vote] in the goal past its guards and through [votes]. *)
Ltac enter_vote Hdue Hvotes :=
  let v := fresh "v" in let s := fresh "s" in
  let Hv := fresh "Hv" in let Hs := fresh "Hs" in
  let Hnot := fresh "Hnot" in let Hnet := fresh "Hnet" in
  destruct Hdue as (v & s & Hv & Hs & Hnot & Hnet);
  apply vote_staleness_returns in Hv;
  unfold vote; unfold bind at 1; rewrite Hv;
  unfold bind at 1; unfold gets at 1; unfold bind at 1;
  unfold lift at 1, py_lt, py_compare; rewrite Hs; cbn [as_num];
  unfold Qc_ltb; rewrite bool_decide_eq_false_2 by done;
  unfold bind at 1, gets at 1;
  apply orb_true_iff in Hnet;
  replace (negb (contains "subspace" (cfg_network (config _)))
           && negb (contains "bittensor" (cfg_network (config _))))
    with false by (destruct Hnet as [-> | ->]; [done|by rewrite andb_false_r]);
  unfold bind at 1; rewrite Hvotes;
  unfold bind at 1, gets at 1.

Lemma add_votes_uids timestamp kept :
  (add_votes {| vs_keys := []; vs_weights := []; vs_uids := [];
                vs_timestamp := timestamp |} kept).(vs_uids) = kept.*2.
Proof. done. Qed.


(** X10.  When the chain client raises while the votes are submitted, [vote]
    raises the same exception: [last_vote_time] is unchanged and the votes are
    not saved, so the next call tries again. *)
Theorem vote_submission_raises E save self e :
  vote_due E self →
  self.(has_subspace) = true →
  forallb well_formed_record (identified E.(cache_listing)) = true →
  ¬ (Z.of_nat (length (eligible_votes E self)) < self.(config).(cfg_min_num_weights))%Z →
  E.(c_vote) (eligible_votes E self).*2 (eligible_votes E self).*1.*2 = Raise e →
  ∃ self' infos,
    vote E false save self = (Raise e, self') ∧
    self'.(last_vote_time) = self.(last_vote_time) ∧
    self'.(calls)
    = self.(calls) ++ [Put "cache/module_infos" (PInfos infos);
                       ChainVote (eligible_votes E self).*2
                                 (eligible_votes E self).*1.*2].
Proof.
  intros Hdue Hsub Hwf Henough Hraise.
  destruct (votes_returns E self Hsub Hwf)
    as (self1 & timestamp & infos & Hvotes & Hcalls & Hlast & Hcfg & _).
  enter_vote Hdue Hvotes.
  rewrite add_votes_uids, length_fmap, Hcfg.
  rewrite bool_decide_eq_false_2 by done.
  unfold bind at 1, record_call at 1, modify at 1.
  unfold bind at 1, lift at 1. cbn [add_votes vs_uids vs_weights app].
  rewrite Hraise.
  eexists _, infos. split; [reflexivity|]. cbn. rewrite Hcalls.
  split; [done|]. by rewrite <- app_assoc.
Qed.

(** X11.  When the chain client returns, whatever it returns, [vote] reports
    [success] true and hands the answer back under [r]; [last_vote_time]
    becomes the next clock reading, and the votes are [put] under
    [storage_path()/votes] exactly when [save] is set. *)
Theorem vote_submitted E save self answer :
  vote_due E self →
  self.(has_subspace) = true →
  forallb well_formed_record (identified E.(cache_listing)) = true →
  ¬ (Z.of_nat (length (eligible_votes E self)) < self.(config).(cfg_min_num_weights))%Z →
  E.(c_vote) (eligible_votes E self).*2 (eligible_votes E self).*1.*2 = Return answer →
  ∃ r self' infos votes,
    vote E false save self = (Return (ODict r), self') ∧
    r !! "success" = Some (VBool true) ∧
    r !! "r" = Some answer ∧
    self'.(last_vote_time)
      = E.(clock) (S (self.(ticks) + length (identified E.(cache_listing)))) ∧
    votes.(vs_uids) = (eligible_votes E self).*2 ∧
    votes.(vs_weights) = (eligible_votes E self).*1.*2 ∧
    self'.(calls)
    = self.(calls) ++ [Put "cache/module_infos" (PInfos infos);
                       ChainVote votes.(vs_uids) votes.(vs_weights)]
        ++ (if save then [Put (storage_path self +:+ "/votes") (PVotes votes)]
            else []).
Proof.
  intros Hdue Hsub Hwf Henough Hanswer.
  destruct (votes_returns E self Hsub Hwf)
    as (self1 & timestamp & infos & Hvotes & Hcalls & Hlast & Hcfg & Hnet1 & Huid1 & Hticks).
  enter_vote Hdue Hvotes.
  rewrite add_votes_uids, length_fmap, Hcfg.
  rewrite bool_decide_eq_false_2 by done.
  unfold bind at 1, record_call at 1, modify at 1.
  unfold bind at 1, lift at 1. cbn [add_votes vs_uids vs_weights app].
  rewrite Hanswer.
  assert (storage_path (set_calls
            (calls self1 ++ [ChainVote (eligible_votes E self).*2
                                       (eligible_votes E self).*1.*2]) self1)
          = storage_path self) as Hpath.
  { unfold storage_path. cbn. by rewrite Hnet1, Huid1. }
  set (built := add_votes {| vs_keys := []; vs_weights := []; vs_uids := [];
                             vs_timestamp := timestamp |} (eligible_votes E self)).
  destruct save.
  - unfold bind at 1, save_votes at 1, bind at 1, gets at 1, record_call at 1, modify at 1.
    rewrite Hpath.
    unfold bind at 1, c_time at 1, bind at 1, modify at 1, ret.
    eexists _, _, infos, built. split; [reflexivity|]. lookup_simpl. cbn.
    rewrite Hcalls, Hticks. repeat split; try done. by rewrite <- !app_assoc.
  - unfold bind at 1, ret at 1.
    unfold bind at 1, c_time at 1, bind at 1, modify at 1, ret.
    eexists _, _, infos, built. split; [reflexivity|]. lookup_simpl. cbn.
    rewrite Hcalls, Hticks. repeat split; try done.
    by rewrite <- !app_assoc.
Qed.

Ltac vote_is_due :=
  eexists _, _; split; [concrete|]; split; [concrete|]; split; concrete.


Lemma vote_submission_raises_witness :
  let self := voting_vali (Qc_of_Z 100) (Qc_of_Z 1000) in
  let E := chain_down ConnectionError
             (voting_env (Qc_of_Z 1001) 500 100
                [cached_record "A" "keyA" (Qc_of_Z 5) (Qc_of_Z 900)]) in
  ∃ self' infos,
    vote E false true self = (Raise ConnectionError, self') ∧
    self'.(last_vote_time) = self.(last_vote_time) ∧
    self'.(calls)
    = self.(calls) ++ [Put "cache/module_infos" (PInfos infos);
                       ChainVote (eligible_votes E self).*2
                                 (eligible_votes E self).*1.*2].
Proof.
  intros self E.
  apply (vote_submission_raises E true self ConnectionError);
    [vote_is_due|concrete..].
Defined.

Lemma vote_submitted_witness :
  let self := voting_vali (Qc_of_Z 100) (Qc_of_Z 1000) in
  let E := voting_env (Qc_of_Z 1001) 500 100
             [cached_record "A" "keyA" (Qc_of_Z 5) (Qc_of_Z 900);
              cached_record "B" "" (Qc_of_Z 9) (Qc_of_Z 950)] in
  ∃ r self' infos votes,
    vote E false true self = (Return (ODict r), self') ∧
    r !! "success" = Some (VBool true) ∧
    r !! "r" = Some (VBool true) ∧
    self'.(last_vote_time)
      = E.(clock) (S (self.(ticks) + length (identified E.(cache_listing)))) ∧
    votes.(vs_uids) = (eligible_votes E self).*2 ∧
    votes.(vs_weights) = (eligible_votes E self).*1.*2 ∧
    self'.(calls)
    = self.(calls) ++ [Put "cache/module_infos" (PInfos infos);
                       ChainVote votes.(vs_uids) votes.(vs_weights)]
        ++ (if true then [Put (storage_path self +:+ "/votes") (PVotes votes)]
            else []).
Proof.
  intros self E.
  apply (vote_submitted E true self (VBool true)); [vote_is_due|concrete..].
Defined.

(** ** What [votes] and [module_infos] return, for any cache *)

Lemma votes_loop_ok key2uid infos : ∀ acc,
  Forall (has_keys vote_keys) infos →
  vote_set_ok key2uid acc →
  match votes_loop key2uid infos acc with
  | Return built => vote_set_ok key2uid built
  | Raise e => e = TypeError
  end.
Proof.
  induction infos as [|info infos IH]; intros acc Hinfos Hacc; [done|].
  apply Forall_cons in Hinfos as [Hinfo Hinfos].
  cbn [votes_loop].
  destruct (in_dict "ss58_address" info); [|by apply IH].
  unfold dict_item.
  destruct (proj2 (Hinfo "w")) as [w ->]; [unfold vote_keys; set_solver|].
  unfold py_ge, py_compare. cbn [as_num].
  destruct (as_num w) as [q|] eqn:Hw; [|done]. cbn [flip].
  unfold Qc_leb. case_bool_decide as Hq; [|by apply IH].
  destruct (proj2 (Hinfo "ss58_address")) as [key ->];
    [unfold vote_keys; set_solver|].
  destruct key as [| b | n | k | repr]; cbn; try done; try by apply IH.
  destruct (key2uid !! k) as [uid|] eqn:Hk; [|by apply IH].
  apply IH; [done|]. destruct Hacc as [Hkeys Hweights].
  split; cbn; (apply Forall2_app; [done|]); apply Forall2_cons; (split; [|done]).
  - by exists k.
  - by exists q.
Qed.

Lemma py_key_lt_Raise a b e : py_key_lt a b = Raise e → e = TypeError.
Proof.
  unfold py_key_lt. intros H.
  destruct (as_num a), (as_num b), a, b; by simplify_eq.
Qed.

Lemma py_key_lt_asym a b : py_key_lt a b = Return true → py_key_lt b a = Return false.
Proof.
  unfold py_key_lt, Qc_ltb. intros H.
  destruct (as_num a) as [x|] eqn:Ha, (as_num b) as [y|] eqn:Hb.
  - simplify_eq. f_equal. apply bool_decide_eq_true_1 in H.
    apply bool_decide_eq_false_2. intros Hyx.
    apply (Qclt_not_le _ _ Hyx). by apply Qclt_le_weak.
  - destruct a, b; by simplify_eq.
  - destruct a, b; by simplify_eq.
  - destruct a as [| | |x|], b as [| | |y|]; simplify_eq. f_equal.
    unfold String.ltb in *. rewrite String.compare_antisym.
    by destruct (String.compare x y).
Qed.

Lemma insert_desc_spec {A} (key : A → value) x l :
  match insert_desc key x l with
  | Return l' =>
      l' ≡ₚ x :: l ∧
      (Sorted (not_below key) l → Sorted (not_below key) l') ∧
      (∀ y, not_below key y x → HdRel (not_below key) y l → HdRel (not_below key) y l')
  | Raise e => e = TypeError
  end.
Proof.
  induction l as [|y l IH]; cbn.
  - split; [done|]. split; [by repeat constructor|]. by repeat constructor.
  - destruct (py_key_lt (key y) (key x)) as [[]|e] eqn:Hyx.
    + split; [done|]. split.
      * intros Hl. constructor; [done|]. constructor. by apply py_key_lt_asym.
      * intros z Hzx _. by constructor.
    + destruct (insert_desc key x l) as [l'|e]; [|done].
      destruct IH as (Hperm & Hsorted & Hhd). split; [|split].
      * rewrite Hperm. apply Permutation_swap.
      * intros Hl. apply Sorted_inv in Hl as [Hl Hy].
        constructor; [by apply Hsorted|by apply Hhd].
      * intros z _ Hz. apply HdRel_inv in Hz. by constructor.
    + by eapply py_key_lt_Raise.
Qed.

Lemma py_sorted_desc_spec {A} (key : A → value) l :
  match py_sorted_desc key l with
  | Return sorted => sorted ≡ₚ l ∧ Sorted (not_below key) sorted
  | Raise e => e = TypeError
  end.
Proof.
  unfold py_sorted_desc.
  set (step := λ (acc : outcome (list A)) x,
         match acc with Raise e => Raise e
         | Return sorted => insert_desc key x sorted end).
  enough (∀ acc, Sorted (not_below key) acc →
    match foldl step (Return acc) l with
    | Return sorted => sorted ≡ₚ acc ++ l ∧ Sorted (not_below key) sorted
    | Raise e => e = TypeError
    end) as H by (apply (H []); constructor).
  induction l as [|x l IH]; intros acc Hacc; cbn.
  - by rewrite app_nil_r.
  - pose proof (insert_desc_spec key x acc) as Hins.
    destruct (insert_desc key x acc) as [acc'|e].
    + destruct Hins as (Hperm & Hsorted & _).
      specialize (IH acc' (Hsorted Hacc)).
      destruct (foldl step (Return acc') l) as [sorted|e]; [|done].
      destruct IH as [IH ?]. split; [|done].
      rewrite IH, Hperm. by rewrite <- Permutation_middle.
    + assert (foldl step (Raise e) l = Raise e) as ->; [|done].
      clear. induction l as [|z l IHl]; [done|]. cbn. exact IHl.
Qed.

Lemma has_keys_projected keys (s : dict) :
  has_keys keys (list_to_map ((λ k, (k, dict_get s k VNone)) <$> keys)).
Proof.
  intros k. rewrite <- not_eq_None_Some, <- not_elem_of_list_to_map.
  rewrite <- list_fmap_compose.
  replace (fst ∘ (λ k0, (k0, dict_get s k0 VNone)) <$> keys) with keys
    by (by rewrite <- (list_fmap_id keys) at 1).
  split; [apply dec_stable|by intros ? ?].
Qed.

Lemma module_infos_loop_returns E keys max_age listing : ∀ acc self,
  match module_infos_loop E keys max_age listing acc self with
  | (Return infos, self') =>
      (∃ new, infos = acc ++ new ∧ Forall (has_keys keys) new ∧
              (length new ≤ length (identified listing))%nat) ∧
      self'.(ticks) = (self.(ticks) + length (identified listing))%nat ∧
      self'.(calls) = self.(calls)
  | (Raise e, self') => e = TypeError ∧ self'.(calls) = self.(calls)
  end.
Proof.
  induction listing as [|[s|] listing IH]; intros acc self.
  - cbn. split; [|by rewrite Nat.add_0_r]. exists []. by rewrite app_nil_r.
  - cbn [module_infos_loop]. rewrite identified_cons.
    destruct (in_dict "ss58_address" s); [|by apply IH].
    unfold bind at 1, c_time at 1. unfold bind at 1, lift at 1.
    unfold py_sub, py_arith. cbn [as_num].
    destruct (as_num (dict_get s "timestamp" (VNum 0))) as [ts|]; [|done].
    unfold bind at 1, lift at 1, py_gt, py_compare. cbn [as_num flip].
    destruct (Qc_ltb max_age _).
    + specialize (IH acc (set_ticks (S (ticks self)) self)).
      destruct (module_infos_loop _ _ _ _ _ _) as [[infos|e] self']; [|done].
      destruct IH as ((new & -> & Hnew & Hlen) & Hticks & Hcalls).
      split; [|cbn in *; split; [lia|done]].
      exists new. cbn. split; [done|]. split; [done|lia].
    + specialize (IH (acc ++ [list_to_map ((λ k, (k, dict_get
                        (<["staleness" := VNum (clock E (ticks self) - ts)]> s) k VNone))
                        <$> keys)])
                     (set_ticks (S (ticks self)) self)).
      destruct (module_infos_loop _ _ _ _ _ _) as [[infos|e] self']; [|done].
      destruct IH as ((new & -> & Hnew & Hlen) & Hticks & Hcalls).
      split; [|cbn in *; split; [lia|done]].
      eexists (_ :: new). rewrite <- app_assoc. split; [done|].
      split; [|cbn; lia]. constructor; [apply has_keys_projected|done].
  - cbn. by apply IH.
Qed.

Lemma module_infos_outcome E keys path max_age sort_by self :
  match module_infos E keys path max_age sort_by self with
  | (Return infos, self') =>
      Forall (has_keys keys) infos ∧
      (length infos ≤ length (identified E.(cache_listing)))%nat ∧
      (∀ field, sort_by = Some field → Sorted (not_below (sort_key field)) infos) ∧
      self'.(calls) = self.(calls) ++ [Put path (PInfos infos)] ∧
      self'.(ticks) = (self.(ticks) + length (identified E.(cache_listing)))%nat
  | (Raise e, self') => e = TypeError ∧ self'.(calls) = self.(calls)
  end.
Proof.
  unfold module_infos. unfold bind at 1.
  pose proof (module_infos_loop_returns E keys max_age E.(cache_listing) [] self) as Hloop.
  destruct (module_infos_loop _ _ _ _ _ _) as [[infos|e] self1]; [|done].
  destruct Hloop as ((new & -> & Hnew & Hlen) & Hticks & Hcalls). cbn [app].
  destruct sort_by as [field|].
  - case_bool_decide as Hsome.
    + unfold bind at 1, lift at 1.
      pose proof (py_sorted_desc_spec (sort_key field) new) as Hsort.
      change (λ x : dict, if in_dict field x then dict_get x field VNone else VNum 0)
        with (sort_key field).
      destruct (py_sorted_desc (sort_key field) new) as [sorted|e]; [|done].
      destruct Hsort as [Hperm Hsorted]. cbn.
      rewrite Hcalls, Hticks. split; [by rewrite Hperm|].
      split; [by rewrite Hperm|]. split; [by intros ? [= <-]|done].
    + cbn. rewrite Hcalls, Hticks. repeat split; try done.
      intros ? _. destruct new; [constructor|cbn in Hsome; lia].
  - cbn. rewrite Hcalls, Hticks. by repeat split.
Qed.



(** ** Further properties of the epoch scheduler *)

Section preserves.
Context {B : Type} (f : vali → B).

Lemma preserves_ret {A} (a : A) : preserves f (ret a).
Proof using Type. done. Qed.

Lemma preserves_raise {A} e : preserves f (@raise A e).
Proof using Type. done. Qed.

Lemma preserves_lift {A} (o : outcome A) : preserves f (lift o).
Proof using Type. done. Qed.

Lemma preserves_gets {A} (g : vali → A) : preserves f (gets g).
Proof using Type. done. Qed.

Lemma preserves_modify g : (∀ self, f (g self) = f self) → preserves f (modify g).
Proof using Type. intros Hg self. apply Hg. Qed.

Lemma preserves_bind {A C} (m : M A) (k : A → M C) :
  preserves f m → (∀ a, preserves f (k a)) → preserves f (bind m k).
Proof using Type.
  intros Hm Hk self. unfold bind. specialize (Hm self).
  destruct (m self) as [[a|e] self']; [|done]. cbn in Hm. by rewrite Hk.
Qed.

Lemma preserves_Return {A} (m : M A) self a self' :
  preserves f m → m self = (Return a, self') → f self' = f self.
Proof using Type. intros Hm Heq. specialize (Hm self). by rewrite Heq in Hm. Qed.

Lemma preserves_vote_staleness E : preserves f (vote_staleness E).
Proof using Type. intros self. by rewrite vote_staleness_state. Qed.

(** [f] does not depend on the clock, on [last_print] or on what is put in
    storage. *)
Hypothesis f_ticks : ∀ n self, f (set_ticks n self) = f self.
Hypothesis f_last_print : ∀ now self, f (set_last_print now self) = f self.
Hypothesis f_put : ∀ path p self,
  f (set_calls (self.(calls) ++ [Put path p]) self) = f self.

Lemma preserves_c_time E : preserves f (c_time E).
Proof using f_ticks. intros self. apply f_ticks. Qed.

Lemma preserves_print_stats E stats_path st :
  preserves f (print_stats E stats_path st).
Proof using f_ticks f_last_print f_put.
  unfold print_stats.
  repeat first
    [ apply preserves_ret | apply preserves_gets | apply preserves_c_time
    | apply preserves_vote_staleness
    | apply preserves_modify; apply f_last_print
    | apply preserves_modify; intros ?; apply f_put
    | apply preserves_bind; [|intros ?]
    | case_match ].
Qed.
End preserves.

Lemma submitted_put path p self :
  submitted (set_calls (self.(calls) ++ [Put path p]) self) = submitted self.
Proof. unfold submitted. cbn. rewrite omap_app. cbn. by rewrite app_nil_r. Qed.

Lemma print_stats_Return E stats_path st self self' :
  print_stats E stats_path st self = (Return (), self') →
  submitted self' = submitted self ∧ self'.(successes) = self.(successes) ∧
  self'.(errors) = self.(errors).
Proof.
  intros Hstats. split; [|split].
  - by eapply (preserves_Return submitted), Hstats;
      apply preserves_print_stats; [..|apply submitted_put].
  - by eapply (preserves_Return successes), Hstats; apply preserves_print_stats.
  - by eapply (preserves_Return errors), Hstats; apply preserves_print_stats.
Qed.

Lemma count_result_Return E result self self' :
  count_result E result self = (Return (), self') →
  submitted self' = submitted self ∧
  self'.(successes)
  = (self.(successes) + Z.of_nat (length (successful E [result])))%Z ∧
  self'.(errors) = (self.(errors) + Z.of_nat (length (failed E [result])))%Z.
Proof.
  unfold count_result, successful, failed. cbn.
  destruct (c_is_error E result); cbn;
    unfold bind, modify, c_time; intros; simplify_eq; cbn; auto with lia.
Qed.

Lemma keeps_epoch_iteration E stats_path st module_address :
  keeps (epoch_iteration E stats_path st module_address).
Proof.
  unfold epoch_iteration.
  repeat first [apply keeps_print_stats | apply keeps_count_result | keeps_step].
Qed.

Lemma successful_app E l1 l2 : successful E (l1 ++ l2) = successful E l1 ++ successful E l2.
Proof. apply List.filter_app. Qed.

Lemma failed_app E l1 l2 : failed E (l1 ++ l2) = failed E l1 ++ failed E l2.
Proof. apply List.filter_app. Qed.

(** What one iteration of the loop does to the futures, the results, the
    submissions and the counters: either it submits its address, or it
    submits nothing and removes at most one future, whose result it appends. *)
Lemma epoch_iteration_cases E stats_path st module_address self st' self' :
  epoch_iteration E stats_path st module_address self = (Return st', self') →
  ((Z.of_nat (length st.(futures)) < self.(config).(cfg_batch_size))%Z ∧
   submitted self' = submitted self ++ [module_address] ∧
   st'.(futures)
   = st.(futures) ++ [{| f_id := st.(next_id); f_address := module_address |}] ∧
   st'.(results) = st.(results) ∧
   self'.(successes) = self.(successes) ∧ self'.(errors) = self.(errors)) ∨
  (¬ (Z.of_nat (length st.(futures)) < self.(config).(cfg_batch_size))%Z ∧
   submitted self' = submitted self ∧
   (((st.(futures) = [] ∨
      ∃ e, E.(as_completed) st.(waits) st.(futures) = WaitFails e) ∧
     st'.(futures) = st.(futures) ∧ st'.(results) = st.(results) ∧
     self'.(successes) = self.(successes) ∧
     (self.(errors) ≤ self'.(errors))%Z) ∨
    (∃ position result,
       E.(as_completed) st.(waits) st.(futures) = Ready position result ∧
       st.(futures) ≠ [] ∧
       st'.(futures)
       = delete (position mod length st.(futures))%nat st.(futures) ∧
       st'.(results) = st.(results) ++ [result] ∧
       self'.(successes)
       = (self.(successes) + Z.of_nat (length (successful E [result])))%Z ∧
       self'.(errors)
       = (self.(errors) + Z.of_nat (length (failed E [result])))%Z))).
Proof.
  intros Hit. unfold epoch_iteration in Hit.
  apply bind_Return in Hit as (k & self0 & Hk1 & Hit).
  unfold gets in Hk1. simplify_eq.
  case_bool_decide as Hlt.
  - left. split; [done|].
    apply bind_Return in Hit as (now & self1 & Hnow & Hit).
    apply bind_Return in Hit as ([] & self2 & Hsent & Hit).
    apply bind_Return in Hit as ([] & self3 & Hsub & Hit).
    apply bind_Return in Hit as ([] & self4 & Hstats & Hit).
    unfold ret in Hit. simplify_eq. cbn [futures results].
    apply print_stats_Return in Hstats as (-> & -> & ->).
    unfold record_call, modify, c_time in *. simplify_eq. cbn.
    split; [|done]. unfold submitted. cbn. by rewrite omap_app.
  - right. split; [done|].
    destruct (as_completed E (waits st) (futures st))
      as [position result|e] eqn:Hwait;
      destruct (futures st) as [|f fs] eqn:Hfs.
    + apply bind_Return in Hit as ([] & self4 & Hstats & Hit).
      unfold ret in Hit. simplify_eq.
      apply print_stats_Return in Hstats as (-> & -> & ->).
      split; [done|]. left. split; [by left|]. repeat split; (done || lia).
    + apply bind_Return in Hit as ([] & self3 & Hcount & Hit).
      apply bind_Return in Hit as ([] & self4 & Hstats & Hit).
      unfold ret in Hit. simplify_eq. cbn [futures results].
      apply print_stats_Return in Hstats as (-> & -> & ->).
      apply count_result_Return in Hcount as (-> & -> & ->).
      split; [done|]. right. by exists position, result.
    + apply bind_Return in Hit as ([] & self4 & Hstats & Hit).
      unfold ret in Hit. simplify_eq.
      apply print_stats_Return in Hstats as (-> & -> & ->).
      split; [done|]. left. split; [by left|]. repeat split; (done || lia).
    + apply bind_Return in Hit as ([] & self3 & Herr & Hit).
      unfold ret, modify in *. simplify_eq. cbn.
      split; [done|]. left. split; [by eauto|]. repeat split; lia.
Qed.

(** The account of the loop: the addresses submitted are a sublist of the
    addresses gone through, every submission is a result or still a future,
    and the counters follow the results. *)
Lemma epoch_loop_account E stats_path module_addresses : ∀ st self st' self',
  epoch_loop E stats_path module_addresses st self = (Return st', self') →
  self'.(config) = self.(config) ∧
  ∃ sent new,
    submitted self' = submitted self ++ sent ∧
    sent `sublist_of` module_addresses ∧
    st'.(results) = st.(results) ++ new ∧
    (length new + length st'.(futures) = length st.(futures) + length sent)%nat ∧
    self'.(successes) = (self.(successes) + Z.of_nat (length (successful E new)))%Z ∧
    (self.(errors) + Z.of_nat (length (failed E new)) ≤ self'.(errors))%Z.
Proof.
  induction module_addresses as [|a l IH]; intros st self st' self' Hloop.
  - unfold epoch_loop, ret in Hloop. simplify_eq. split; [done|].
    exists [], []. rewrite !app_nil_r. cbn. repeat split; (done || lia).
  - cbn [epoch_loop] in Hloop.
    apply bind_Return in Hloop as (st1 & self1 & Hit & Hloop).
    pose proof (keeps_config _ self (keeps_epoch_iteration E stats_path st a)) as Hcfg.
    rewrite Hit in Hcfg. cbn in Hcfg.
    apply IH in Hloop
      as (Hcfg' & sent & new & Hsent & Hsub & Hres & Hlen & Hsucc & Herr).
    split; [congruence|].
    apply epoch_iteration_cases in Hit
      as [(_ & Hs & Hf & Hr & Hok & Hko)
         |(_ & Hs & [(_ & Hf & Hr & Hok & Hko)
                    |(position & result & _ & Hne & Hf & Hr & Hok & Hko)])].
    + exists (a :: sent), new. rewrite Hsent, Hs, <- app_assoc.
      split; [done|]. split; [by constructor|].
      rewrite Hres, Hr, Hsucc, Hok. split; [done|].
      rewrite Hf, length_app in Hlen. cbn in *. repeat split; lia.
    + exists sent, new. rewrite Hsent, Hs.
      split; [done|]. split; [by constructor|].
      rewrite Hres, Hr, Hsucc, Hok, <- Hf. repeat split; (done || lia).
    + exists sent, (result :: new). rewrite Hsent, Hs.
      split; [done|]. split; [by constructor|].
      rewrite Hres, Hr, <- app_assoc. split; [done|].
      assert (position `mod` length (futures st) < length (futures st))%nat as Hpos.
      { apply Nat.mod_upper_bound. by destruct (futures st). }
      rewrite Hf, length_delete in Hlen by (by apply lookup_lt_is_Some).
      change (result :: new) with ([result] ++ new).
      rewrite successful_app, failed_app, !length_app.
      cbn [length]. repeat split; lia.
Qed.

(** The final drain: when it returns, it has appended one result per pending
    future, and counted each. *)
Lemma epoch_drain_account E : ∀ fuel pending results waits self drained self',
  (length pending ≤ fuel)%nat →
  epoch_drain E fuel pending results waits self = (Return drained, self') →
  submitted self' = submitted self ∧
  ∃ new,
    drained = results ++ new ∧ length new = length pending ∧
    self'.(successes) = (self.(successes) + Z.of_nat (length (successful E new)))%Z ∧
    self'.(errors) = (self.(errors) + Z.of_nat (length (failed E new)))%Z.
Proof.
  induction fuel as [|fuel IH]; intros pending results waits self drained self' Hfuel Hdrain.
  - destruct pending; [|cbn in Hfuel; lia].
    cbn in Hdrain. unfold ret in Hdrain. simplify_eq. split; [done|].
    exists []. rewrite app_nil_r. cbn. repeat split; lia.
  - destruct pending as [|f fs].
    { cbn in Hdrain. unfold ret in Hdrain. simplify_eq. split; [done|].
      exists []. rewrite app_nil_r. cbn. repeat split; lia. }
    cbn [epoch_drain] in Hdrain.
    destruct (as_completed E waits (f :: fs)) as [position result|e]; [|done].
    apply bind_Return in Hdrain as ([] & self1 & Hcount & Hdrain).
    apply count_result_Return in Hcount as (Hs & Hok & Hko).
    assert (position `mod` length (f :: fs) < length (f :: fs))%nat as Hpos
      by (by apply Nat.mod_upper_bound).
    apply IH in Hdrain as (Hs' & new & -> & Hlen & Hok' & Hko').
    2: { rewrite length_delete by (by apply lookup_lt_is_Some). cbn in *. lia. }
    split; [congruence|].
    exists (result :: new). rewrite <- app_assoc. split; [done|].
    rewrite length_delete in Hlen by (by apply lookup_lt_is_Some).
    change (result :: new) with ([result] ++ new).
    rewrite successful_app, failed_app, !length_app, Hok', Hko', Hok, Hko.
    cbn [length] in *. repeat split; lia.
Qed.

(** [epoch], when it returns, in terms of its loop and of the final drain. *)
Lemma epoch_Return E stats_path self drained self' :
  epoch E stats_path self = (Return drained, self') →
  ∃ st self1 now,
    epoch_loop E stats_path (epoch_addresses E self) epoch_start
      (set_last_sync_time now (set_ticks (S self.(ticks)) self)) = (Return st, self1) ∧
    epoch_drain E (length st.(futures)) st.(futures) st.(results) st.(waits) self1
    = (Return drained, self').
Proof.
  intros Hepoch. unfold epoch in Hepoch.
  apply bind_Return in Hepoch as (ns & self0 & Hns & Hepoch).
  unfold gets in Hns. simplify_eq.
  apply bind_Return in Hepoch as (now & self1 & Hnow & Hepoch).
  unfold c_time in Hnow. simplify_eq.
  apply bind_Return in Hepoch as ([] & self2 & Hsync & Hepoch).
  unfold modify in Hsync. simplify_eq.
  apply bind_Return in Hepoch as (st & self3 & Hloop & Hepoch).
  exists st, self3, (clock E (ticks self0)). split; [exact Hloop|].
  case_bool_decide as Hlen; [done|].
  destruct (futures st); [|cbn in Hlen; lia]. exact Hepoch.
Qed.

(** With room for every address, each iteration of the loop submits. *)
Lemma epoch_loop_room E stats_path module_addresses : ∀ st self st' self',
  (Z.of_nat (length st.(futures) + length module_addresses)
   ≤ self.(config).(cfg_batch_size))%Z →
  epoch_loop E stats_path module_addresses st self = (Return st', self') →
  submitted self' = submitted self ++ module_addresses ∧
  f_address <$> st'.(futures) = (f_address <$> st.(futures)) ++ module_addresses ∧
  st'.(results) = st.(results) ∧ self'.(errors) = self.(errors).
Proof.
  induction module_addresses as [|a l IH]; intros st self st' self' Hroom Hloop.
  - unfold epoch_loop, ret in Hloop. simplify_eq. by rewrite !app_nil_r.
  - cbn [epoch_loop] in Hloop.
    apply bind_Return in Hloop as (st1 & self1 & Hit & Hloop).
    pose proof (keeps_config _ self (keeps_epoch_iteration E stats_path st a)) as Hcfg.
    rewrite Hit in Hcfg. cbn in Hcfg.
    apply epoch_iteration_cases in Hit
      as [(_ & Hs & Hf & Hr & _ & Hko)|(Hfull & _)]; [|cbn in Hroom; lia].
    apply IH in Hloop as (Hs' & Hf' & Hr' & Hko').
    + rewrite Hs', Hs, Hf', Hf, Hr', Hr, Hko', Hko, fmap_app, <- !app_assoc. done.
    + rewrite Hcfg, Hf, length_app. cbn in *. lia.
Qed.

(** Without capacity, the loop submits nothing and has nothing to wait for. *)
Lemma epoch_loop_no_capacity E stats_path module_addresses : ∀ st self st' self',
  (self.(config).(cfg_batch_size) ≤ 0)%Z →
  st.(futures) = [] →
  epoch_loop E stats_path module_addresses st self = (Return st', self') →
  submitted self' = submitted self ∧ st'.(futures) = [] ∧
  st'.(results) = st.(results).
Proof.
  induction module_addresses as [|a l IH]; intros st self st' self' Hk Hnone Hloop.
  - unfold epoch_loop, ret in Hloop. by simplify_eq.
  - cbn [epoch_loop] in Hloop.
    apply bind_Return in Hloop as (st1 & self1 & Hit & Hloop).
    pose proof (keeps_config _ self (keeps_epoch_iteration E stats_path st a)) as Hcfg.
    rewrite Hit in Hcfg. cbn in Hcfg.
    apply epoch_iteration_cases in Hit
      as [(Hlt & _)
         |(_ & Hs & [(_ & Hf & Hr & _)|(? & ? & _ & Hne & _)])];
      [lia| |done].
    apply IH in Hloop as (Hs' & Hf' & Hr'); [|by rewrite Hcfg|congruence].
    by rewrite Hs', Hs, Hr', Hr.
Qed.

(** When no wait completes, the futures of the loop only accumulate. *)
Lemma epoch_loop_stalled E stats_path e module_addresses : ∀ st self st' self',
  (∀ n pending, E.(as_completed) n pending = WaitFails e) →
  epoch_loop E stats_path module_addresses st self = (Return st', self') →
  (length st.(futures) ≤ length st'.(futures))%nat ∧
  ((0 < self.(config).(cfg_batch_size))%Z → module_addresses ≠ [] →
   st'.(futures) ≠ []).
Proof.
  induction module_addresses as [|a l IH]; intros st self st' self' Hstall Hloop.
  - unfold epoch_loop, ret in Hloop. by simplify_eq.
  - cbn [epoch_loop] in Hloop.
    apply bind_Return in Hloop as (st1 & self1 & Hit & Hloop).
    apply IH in Hloop as (Hmono & _); [|done].
    apply epoch_iteration_cases in Hit
      as [(_ & _ & Hf & _)
         |(Hfull & _ & [(_ & Hf & _)|(? & ? & Hready & _)])];
      [| |by rewrite Hstall in Hready].
    + rewrite Hf, length_app in Hmono. cbn in Hmono.
      split; [lia|]. intros _ _ Hnil. rewrite Hnil in Hmono. cbn in Hmono. lia.
    + rewrite Hf in Hmono. split; [done|]. intros Hk _ Hnil.
      rewrite Hnil in Hmono. cbn in Hmono. lia.
Qed.

(** X14.  When [epoch] returns, it returns exactly one result for each task
    it submitted, and what it submitted is a sublist of the shuffled
    addresses of the namespace, in their order: no entry of that list is
    submitted twice in one epoch, and nothing else is. *)
Theorem epoch_result_per_submission E stats_path self drained self' :
  epoch E stats_path self = (Return drained, self') →
  ∃ sent,
    submitted self' = submitted self ++ sent ∧
    sent `sublist_of` epoch_addresses E self ∧
    length drained = length sent.
Proof.
  intros Hepoch. apply epoch_Return in Hepoch as (st & self1 & now & Hloop & Hdrain).
  apply epoch_loop_account in Hloop
    as (_ & sent & new & Hsent & Hsub & Hres & Hlen & _).
  apply epoch_drain_account in Hdrain as (Hs & new' & -> & Hlen' & _); [|done].
  exists sent. rewrite Hs, Hsent. split; [done|]. split; [done|].
  rewrite Hres, !length_app. cbn in *. lia.
Qed.

Lemma epoch_result_per_submission_witness :
  let self := scenario_vali (scenario_config (Qc_frac 1 5) (Qc_of_Z 60) 1) ∅ in
  let E := scenario_env (Qc_of_Z 1000) (reachable m1_info) default_score_module in
  ∃ drained self',
    epoch E "worker_stats" self = (Return drained, self') ∧
    ∃ sent,
      submitted self' = submitted self ++ sent ∧
      sent `sublist_of` epoch_addresses E self ∧
      length drained = length sent.
Proof.
  intros self E. eexists _, _. split; [concrete|].
  apply (epoch_result_per_submission E "worker_stats" self). concrete.
Defined.

(** X15.  When [epoch] returns, [successes] has grown by the number of
    returned results that are not errors for [c.is_error], and [errors] by
    at least the number of those that are (a failed wait adds the futures it
    cancels). *)
Theorem epoch_counts_results E stats_path self drained self' :
  epoch E stats_path self = (Return drained, self') →
  self'.(successes)
  = (self.(successes) + Z.of_nat (length (successful E drained)))%Z ∧
  (self.(errors) + Z.of_nat (length (failed E drained)) ≤ self'.(errors))%Z.
Proof.
  intros Hepoch. apply epoch_Return in Hepoch as (st & self1 & now & Hloop & Hdrain).
  apply epoch_loop_account in Hloop
    as (_ & sent & new & _ & _ & Hres & _ & Hok & Hko).
  apply epoch_drain_account in Hdrain as (_ & new' & -> & _ & Hok' & Hko'); [|done].
  cbn in Hres, Hok, Hko. rewrite Hres, successful_app, failed_app, !length_app.
  lia.
Qed.

Lemma epoch_counts_results_witness :
  let self := scenario_vali (scenario_config (Qc_frac 1 5) (Qc_of_Z 60) 2) ∅ in
  let E := scenario_env (Qc_of_Z 1000) (reachable m1_info) default_score_module in
  ∃ drained self',
    epoch E "worker_stats" self = (Return drained, self') ∧
    self'.(successes)
    = (self.(successes) + Z.of_nat (length (successful E drained)))%Z ∧
    (self.(errors) + Z.of_nat (length (failed E drained)) ≤ self'.(errors))%Z.
Proof.
  intros self E. eexists _, _. split; [concrete|].
  apply (epoch_counts_results E "worker_stats" self). concrete.
Defined.

(** X16.  When the namespace has no more addresses than [batch_size], the
    pool never fills: an [epoch] that returns has submitted every address, in
    the shuffled order, returns one result for each, and [errors] grows by
    exactly the number of error results. *)
Theorem epoch_submits_all_with_room E stats_path self drained self' :
  (Z.of_nat (length (epoch_addresses E self)) ≤ self.(config).(cfg_batch_size))%Z →
  epoch E stats_path self = (Return drained, self') →
  submitted self' = submitted self ++ epoch_addresses E self ∧
  length drained = length (epoch_addresses E self) ∧
  self'.(errors) = (self.(errors) + Z.of_nat (length (failed E drained)))%Z.
Proof.
  intros Hroom Hepoch.
  apply epoch_Return in Hepoch as (st & self1 & now & Hloop & Hdrain).
  apply epoch_loop_room in Hloop as (Hsent & Hf & Hres & Hko); [|done].
  apply epoch_drain_account in Hdrain as (Hs & new & -> & Hlen & _ & Hko'); [|done].
  cbn in Hsent, Hf, Hres, Hko.
  rewrite Hs, Hsent, Hko', Hko, Hres. cbn. split; [done|].
  rewrite <- Hf, length_fmap. by split.
Qed.

Lemma epoch_submits_all_with_room_witness :
  let self := scenario_vali (scenario_config (Qc_frac 1 5) (Qc_of_Z 60) 2) ∅ in
  let E := scenario_env (Qc_of_Z 1000) (reachable m1_info) default_score_module in
  ∃ drained self',
    epoch E "worker_stats" self = (Return drained, self') ∧
    submitted self' = submitted self ++ epoch_addresses E self ∧
    length drained = length (epoch_addresses E self) ∧
    self'.(errors) = (self.(errors) + Z.of_nat (length (failed E drained)))%Z.
Proof.
  intros self E. eexists _, _. split; [concrete|].
  apply (epoch_submits_all_with_room E "worker_stats" self); concrete.
Defined.

(** X17.  With a [batch_size] of 0 or less, [epoch] evaluates nothing: it
    submits no task and, when it returns, returns the empty list. *)
Theorem epoch_without_capacity E stats_path self drained self' :
  (self.(config).(cfg_batch_size) ≤ 0)%Z →
  epoch E stats_path self = (Return drained, self') →
  drained = [] ∧ submitted self' = submitted self.
Proof.
  intros Hk Hepoch.
  apply epoch_Return in Hepoch as (st & self1 & now & Hloop & Hdrain).
  apply epoch_loop_no_capacity in Hloop as (Hsent & Hf & Hres); [|done..].
  rewrite Hf, Hres in Hdrain. cbn in Hdrain. unfold ret in Hdrain.
  by simplify_eq.
Qed.

Lemma epoch_without_capacity_witness :
  let self := scenario_vali (scenario_config (Qc_frac 1 5) (Qc_of_Z 60) 0) ∅ in
  let E := scenario_env (Qc_of_Z 1000) (reachable m1_info) default_score_module in
  ∃ drained self',
    epoch E "worker_stats" self = (Return drained, self') ∧
    drained = [] ∧ submitted self' = submitted self.
Proof.
  intros self E. eexists _, _. split; [concrete|].
  apply (epoch_without_capacity E "worker_stats" self); concrete.
Defined.

(** X18.  The final wait of [epoch] is outside any [try]: with room for at
    least one task and a namespace that is not empty, an epoch in which no
    wait on the futures ever completes does not return, it raises. *)
Theorem epoch_raises_when_nothing_completes E stats_path e self :
  (∀ n pending, E.(as_completed) n pending = WaitFails e) →
  (0 < self.(config).(cfg_batch_size))%Z →
  epoch_addresses E self ≠ [] →
  ∃ e' self', epoch E stats_path self = (Raise e', self').
Proof.
  intros Hstall Hk Hne.
  destruct (epoch E stats_path self) as [[drained|e'] self'] eqn:Hepoch;
    [|by eauto].
  apply epoch_Return in Hepoch as (st & self1 & now & Hloop & Hdrain).
  apply (epoch_loop_stalled _ _ e) in Hloop as (_ & Hsome); [|done].
  specialize (Hsome Hk Hne).
  destruct (futures st) as [|f fs]; [done|].
  cbn in Hdrain. by rewrite Hstall in Hdrain.
Qed.

Lemma epoch_raises_when_nothing_completes_witness :
  let self := scenario_vali (scenario_config (Qc_frac 1 5) (Qc_of_Z 60) 1) ∅ in
  let E := stalled TimeoutError
             (scenario_env (Qc_of_Z 1000) (reachable m1_info) default_score_module) in
  ∃ e' self', epoch E "worker_stats" self = (Raise e', self').
Proof.
  intros self E.
  apply (epoch_raises_when_nothing_completes E "worker_stats" TimeoutError self).
  - intros n pending. reflexivity.
  - concrete.
  - concrete.
Defined.
